(** * opm-models: brine property model, M-phase N-component primary
      variables and the Cartesian index mapper

    A shallow embedding of

    - [dumux/new_material/components/brine.hh]        (module [Brine]),
    - [dumux/boxmodels/mpnc/mpncprimaryvariables.hh]  (module [MPNCPrimaryVariables]),
    - [ewoms/common/cartesianindexmapper.hh]          (module [CartesianIndexMapper],
      with its nested class [GlobalIndexDataHandle]),

    followed by the properties of these three classes.

    The C++ classes are templates over a number type [Scalar]; the
    embedding is generic over it in the same way (class [ScalarOps]).
    Two number types are provided: IEEE binary64 ([float], what
    [Scalar = double] means on the machine; it computes) and the real
    numbers (exact arithmetic, with [exp] and [pow]). *)

From Stdlib Require Import ZArith QArith Reals Lra Lia Floats Bool.
From stdpp Require Import base list gmap.

(* ===================================================================== *)
(** * Part I.  Definitions                                                *)
(* ===================================================================== *)

(** ** The number type [Scalar] *)

(** The arithmetic a [Scalar] offers to the three classes.  [lit q] is the
    value of a decimal literal of the source ([1.1], [1e-7], [273.15]) or
    of an [int] that C++ converts to [Scalar] ([1000*salinity]).  The
    comparisons return [bool], as [operator<], [operator<=] and
    [operator==] do; [a > b] is [sltb b a]. *)
Class ScalarOps (Scalar : Type) : Type := {
  lit  : Q -> Scalar;
  sadd : Scalar -> Scalar -> Scalar;
  ssub : Scalar -> Scalar -> Scalar;
  smul : Scalar -> Scalar -> Scalar;
  sdiv : Scalar -> Scalar -> Scalar;
  sneg : Scalar -> Scalar;
  sabs : Scalar -> Scalar;
  sltb : Scalar -> Scalar -> bool;
  sleb : Scalar -> Scalar -> bool;
  seqb : Scalar -> Scalar -> bool
}.

(** [std::pow] and [std::exp] of [<cmath>]. *)
Class CMath (Scalar : Type) : Type := {
  spow : Scalar -> Scalar -> Scalar;
  sexp : Scalar -> Scalar
}.

Declare Scope scalar_scope.
Delimit Scope scalar_scope with S.
Infix "+" := sadd : scalar_scope.
Infix "-" := ssub : scalar_scope.
Infix "*" := smul : scalar_scope.
Infix "/" := sdiv : scalar_scope.
Notation "- x" := (sneg x) : scalar_scope.
Infix "<?" := sltb : scalar_scope.
Infix "<=?" := sleb : scalar_scope.
Infix "==?" := seqb (at level 70) : scalar_scope.
Notation "'#' q" := (lit q%Q) (at level 9, q at level 9, format "'#' q") : scalar_scope.

(** *** [double]: IEEE 754 binary64 *)

Definition float_of_Z (z : Z) : float :=
  match z with
  | Z0 => PrimFloat.zero
  | Zpos _ => PrimFloat.of_uint63 (Uint63.of_Z z)
  | Zneg p => PrimFloat.opp (PrimFloat.of_uint63 (Uint63.of_Z (Zpos p)))
  end.

(** The binary64 value of a literal.  Numerator and denominator of every
    literal of the three classes are, in lowest terms, below 2^53, hence
    exact, and the one correctly rounded division gives the nearest
    double, which is what the compiler stores. *)
Definition float_lit (q : Q) : float :=
  let r := Qred q in
  PrimFloat.div (float_of_Z (Qnum r)) (float_of_Z (Zpos (Qden r))).

#[export] Instance float_ScalarOps : ScalarOps float := {|
  lit := float_lit;
  sadd := PrimFloat.add;
  ssub := PrimFloat.sub;
  smul := PrimFloat.mul;
  sdiv := PrimFloat.div;
  sneg := PrimFloat.opp;
  sabs := PrimFloat.abs;
  sltb := PrimFloat.ltb;
  sleb := PrimFloat.leb;
  seqb := PrimFloat.eqb
|}.

(** *** Real numbers: exact arithmetic with [exp] and [pow] *)

Definition Rltb (a b : R) : bool := if Rlt_dec a b then true else false.
Definition Rleb (a b : R) : bool := if Rle_dec a b then true else false.
Definition Reqb (a b : R) : bool := if Req_dec_T a b then true else false.

#[export] Instance R_ScalarOps : ScalarOps R := {|
  lit := Q2R;
  sadd := Rplus;
  ssub := Rminus;
  smul := Rmult;
  sdiv := Rdiv;
  sneg := Ropp;
  sabs := Rabs;
  sltb := Rltb;
  sleb := Rleb;
  seqb := Reqb
|}.

(** [std::pow] on the reals, where its result is a real number: a positive
    base with any exponent, and any base with an integral exponent
    ([pow(0, y) = 0] for a positive [y] that is not integral).  Where
    [std::pow] returns NaN or an infinity this function returns a number
    nothing below depends on. *)
Definition Rcpow (x y : R) : R :=
  if Rlt_dec 0 x then Rpower x y
  else if Req_dec_T y (IZR (Int_part y)) then powerRZ x (Int_part y)
  else 0%R.

#[export] Instance R_CMath : CMath R := {| spow := Rcpow; sexp := exp |}.

(** *** Laws of arithmetic

    The properties below name the laws they rest on.  [ScalarLaws] holds
    for binary64 arithmetic as well as for exact arithmetic; [ExactLaws]
    holds for exact arithmetic only (rounding breaks it). *)
Class ScalarLaws (Scalar : Type) `{ScalarOps Scalar} : Prop := {
  sadd_sneg : forall a b, (a + - b = a - b)%S;
  sdiv_sneg : forall a b, (- a / b = - (a / b))%S;
  smul_comm : forall a b, (a * b = b * a)%S;
  sltb_asym : forall a b, (a <? b)%S = true -> (b <? a)%S = false;
  sltb_sleb : forall a b, (a <? b)%S = true -> (a <=? b)%S = true;
  sltb_sabs : forall a b, (a <? b)%S = true -> (a <? sabs b)%S = true
}.

Class ExactLaws (Scalar : Type) `{ScalarOps Scalar} : Prop := {
  ssub_ssub : forall x y r, ((x - r) - (y - r) = x - y)%S;
  sadd_move : forall a b c, (a + b = c)%S -> (b = c - a)%S
}.

(* --------------------------------------------------------------------- *)
(** ** [Dune::Brine]  (brine.hh)                                          *)
(* --------------------------------------------------------------------- *)

(** [h2o.hh] is not part of the sources at hand: the functions of
    [Dune::H2O] that [Brine] calls, and [H2O::liquidViscosity], which it is
    compared with, are taken as a parameter. *)
Record H2O (Scalar : Type) : Type := {
  H2O_vaporPressure   : Scalar -> Scalar;
  H2O_liquidEnthalpy  : Scalar -> Scalar -> Scalar;
  H2O_liquidDensity   : Scalar -> Scalar -> Scalar;
  H2O_liquidViscosity : Scalar -> Scalar -> Scalar
}.
Arguments H2O_vaporPressure {Scalar} _ _.
Arguments H2O_liquidEnthalpy {Scalar} _ _ _.
Arguments H2O_liquidDensity {Scalar} _ _ _.
Arguments H2O_liquidViscosity {Scalar} _ _ _.

Module Brine.
Section Brine.
Context {Scalar : Type} `{ScalarOps Scalar} `{CMath Scalar}.
Local Open Scope scalar_scope.

(** [typedef Dune::H2O<Scalar> H2O] and the static member
    [Brine<Scalar>::salinity] (0.1 unless the program assigns it). *)
Variable water : H2O Scalar.
Variable salinity : Scalar.

Definition vaporPressure (T : Scalar) : Scalar := H2O_vaporPressure water T.

(** [molarMass()]: "this assumes that the salt is pure NaCl".
    [H2O::molarMass()] is another function of [h2o.hh] and is passed
    in. *)
Definition molarMass (H2O_molarMass : Scalar) : Scalar :=
  H2O_molarMass * (#1 - salinity) + salinity * #58.

(** Numerical coefficients from PALLISER, [f[4]]. *)
Definition f (k : nat) : Q :=
  nth k [2.63500E-1; 7.48368E-6; 1.44611E-6; -3.80860E-10]%Q 0%Q.

(** Numerical coefficients from MICHAELIDES, [a[4][3]]. *)
Definition a (i j : nat) : Q :=
  nth j (nth i [ [ -9633.6;    -4080.0;  286.49 ];
                 [ 166.58;      68.577; -4.6856 ];
                 [ -0.90963;   -0.36524; 0.249667E-1 ];
                 [ 0.17965E-2;  0.71924E-3; -0.4900E-4 ] ]%Q []) 0%Q.

(** An [int] loop counter converted to [Scalar]. *)
Definition of_int (n : nat) : Scalar := lit (inject_Z (Z.of_nat n)).

(** Salt saturation limit [S_lSAT] at [theta] degrees Celsius. *)
Definition S_lSAT (theta : Scalar) : Scalar :=
  #(f 0) + #(f 1) * theta + #(f 2) * spow theta #2 + #(f 3) * spow theta #3.

(** The two nested [for] loops that accumulate [d_h]. *)
Definition d_h_loop (theta m : Scalar) : Scalar :=
  fold_left
    (fun d_h i =>
       fold_left
         (fun d_h j => d_h + #(a i j) * spow theta (of_int i) * spow m (of_int j))
         (seq 0 3) d_h)
    (seq 0 4) #0.

Definition liquidEnthalpy (T p : Scalar) : Scalar :=
  let theta := T - #273.15 in
  let S := salinity in
  let S_lSAT := S_lSAT theta in
  (* Regularization *)
  let S := if S_lSAT <? S then S_lSAT else S in
  let hw := H2O_liquidEnthalpy water T p / #1E3 in
  (* DAUBERT and DANNER *)
  let h_NaCl :=
    (#3.6710E4 * T + #0.5 * #6.2770E1 * T * T - (#6.6670E-2 / #3) * T * T * T
     + (#2.8000E-5 / #4) * spow T #4) / #58.44E3 - #2.045698e+02 in
  let m := (#1E3 / #58.44) * (S / (#1 - S)) in
  let d_h := d_h_loop theta m in
  let delta_h := (#4.184 / (#1E3 + (#58.44 * m))) * d_h in
  (* Enthalpy of brine *)
  let h_ls1 := (#1 - S) * hw + S * h_NaCl + S * delta_h in
  let h_ls := h_ls1 * #1E3 in
  h_ls.

Definition liquidDensity (temperature pressure : Scalar) : Scalar :=
  let TempC := temperature - #273.15 in
  let pMPa := pressure / #1.0E6 in
  let rhow := H2O_liquidDensity water temperature pressure in
  rhow +
  #1000 * salinity * (
    #0.668 +
    #0.44 * salinity +
    #1.0E-6 * (
      #300 * pMPa -
      #2400 * pMPa * salinity +
      TempC * (
        #80.0 -
        #3 * TempC -
        #3300 * salinity -
        #13 * pMPa +
        #47 * pMPa * salinity))).

(** The sum in brackets that [liquidDensity] multiplies
    [1000*salinity] with. *)
Definition salinityCorrection (temperature pressure : Scalar) : Scalar :=
  let TempC := temperature - #273.15 in
  let pMPa := pressure / #1.0E6 in
  #0.668 +
  #0.44 * salinity +
  #1.0E-6 * (
    #300 * pMPa -
    #2400 * pMPa * salinity +
    TempC * (
      #80.0 -
      #3 * TempC -
      #3300 * salinity -
      #13 * pMPa +
      #47 * pMPa * salinity)).

Definition liquidInternalEnergy (temperature pressure : Scalar) : Scalar :=
  liquidEnthalpy temperature pressure - pressure / liquidDensity temperature pressure.

(** One trip through the body of the loop of [liquidPressure]: the new
    [deltaP] and the new [pressure]. *)
Definition newton_body (temperature density eps pressure : Scalar) : Scalar * Scalar :=
  let f := liquidDensity temperature pressure - density in
  let df_dp := liquidDensity temperature (pressure + eps) in
  let df_dp := df_dp - liquidDensity temperature (pressure - eps) in
  let df_dp := df_dp / (#2 * eps) in
  let deltaP := - f / df_dp in
  let pressure := pressure + deltaP in
  (deltaP, pressure).

(** The loop condition without [i < 5]. *)
Definition not_converged (pressure deltaP : Scalar) : bool :=
  sabs (pressure * #1e-9) <? sabs deltaP.

(** [for (int i = 0; i < 5 && std::abs(pressure*1e-9) < std::abs(deltaP); ++i)],
    with [trips = 5 - i] the number of trips [i < 5] still allows. *)
Fixpoint newton_loop (trips : nat) (temperature density eps pressure deltaP : Scalar)
  : Scalar :=
  match trips with
  | O => pressure
  | S trips' =>
      if not_converged pressure deltaP then
        let '(deltaP, pressure) := newton_body temperature density eps pressure in
        newton_loop trips' temperature density eps pressure deltaP
      else pressure
  end.

Definition liquidPressure (temperature density : Scalar) : Scalar :=
  let pressure := #1.1 * vaporPressure temperature in
  let eps := pressure * #1e-7 in
  let deltaP := pressure * #2 in
  newton_loop 5 temperature density eps pressure deltaP.

(** The brine correlation of [liquidViscosity], at a temperature that
    has been through the regularisation. *)
Definition viscosityCorrelation (temperature : Scalar) : Scalar :=
  let T_C := temperature - #273.15 in
  let A := (#0.42 * spow (spow salinity #0.8 - #0.17) #2 + #0.045) * spow T_C #0.8 in
  let mu_brine :=
    #0.1 + #0.333 * salinity
    + (#1.65 + #91.9 * salinity * salinity * salinity) * sexp (- A) in
  mu_brine / #1000.0.

Definition liquidViscosity (temperature pressure : Scalar) : Scalar :=
  let temperature := if temperature <=? #275 then #275 else temperature in
  viscosityCorrelation temperature.

(** The pair [(deltaP, pressure)] after [k] trips through the body of
    the loop of [liquidPressure], taken whether or not the loop
    condition holds on the way. *)
Fixpoint newton_trips (k : nat) (temperature density : Scalar) : Scalar * Scalar :=
  let start := #1.1 * vaporPressure temperature in
  match k with
  | O => (start * #2, start)
  | S k' =>
      newton_body temperature density (start * #1e-7)
                  (snd (newton_trips k' temperature density))
  end.

(** *** Pressure from density as section 4.1 of the specification words it *)

(** "an initial guess P0 = 1.1 x vaporPressure(T)" *)
Definition spec_P0 (T : Scalar) : Scalar := #1.1 * vaporPressure T.

(** "step eps = P0 . 10^-7" *)
Definition spec_eps (T : Scalar) : Scalar := spec_P0 T * #1e-7.

(** "f(P) = density(T,P) - rho*" *)
Definition spec_f (T rho P : Scalar) : Scalar := liquidDensity T P - rho.

(** "derivative estimated by central finite difference":
    [(f(P + eps) - f(P - eps)) / (2 eps)], where [rho*] drops out of the
    difference and leaves the difference of the two densities. *)
Definition spec_f' (T P : Scalar) : Scalar :=
  (liquidDensity T (P + spec_eps T) - liquidDensity T (P - spec_eps T))
  / (#2 * spec_eps T).

(** "update P <- P - f(P)/f'(P)" *)
Definition spec_update (T rho P : Scalar) : Scalar :=
  P - spec_f T rho P / spec_f' T P.

(** The pressure after [k] updates. *)
Fixpoint spec_iterate (T rho : Scalar) (k : nat) : Scalar :=
  match k with
  | O => spec_P0 T
  | S k' => spec_update T rho (spec_iterate T rho k')
  end.

(** The step [Delta P] that led to the pressure after [k] updates;
    before the first update the program holds [2 P0] in its place. *)
Definition spec_deltaP (T rho : Scalar) (k : nat) : Scalar :=
  match k with
  | O => spec_P0 T * #2
  | S k' =>
      let P := spec_iterate T rho k' in
      - (spec_f T rho P / spec_f' T P)
  end.

(** "|Delta P| falls below a relative tolerance (10^-9 of P)" *)
Definition spec_withinTolerance (P deltaP : Scalar) : bool :=
  sabs deltaP <? #1e-9 * P.

End Brine.
End Brine.

(* --------------------------------------------------------------------- *)
(** ** [Dumux::MPNCPrimaryVariables]  (mpncprimaryvariables.hh)           *)
(* --------------------------------------------------------------------- *)

(** How a call ends: normally, in a failed [assert], or with an index
    outside the [Dune::FieldVector] (undefined behaviour in C++). *)
Inductive outcome (A : Type) : Type :=
  | Done (a : A)
  | AssertionFailed
  | OutOfRange.
Arguments Done {A} a.
Arguments AssertionFailed {A}.
Arguments OutOfRange {A}.

Module MPNCPrimaryVariables.
Section MPNC.
Context {Scalar : Type} `{ScalarOps Scalar}.
Local Open Scope scalar_scope.

(** The template parameter [FluidState]: what the class reads from it,
    by phase index and component index. *)
Record FluidState : Type := {
  temperature : nat -> Scalar;
  pressure    : nat -> Scalar;
  saturation  : nat -> Scalar;
  molarity    : nat -> nat -> Scalar;
  fugacity    : nat -> nat -> Scalar
}.

(** [typename MaterialLaw::Params], opaque to this class. *)
Variable Params : Type.

(** One call of [NcpFlash::solve]: the fluid state it starts from, the
    capillary pressure parameters and the global molarities. *)
Record FlashCall : Type := {
  flashInitial    : FluidState;
  flashParams     : Params;
  flashMolarities : list Scalar
}.

(** The object the member functions work on: the vector itself
    ([*this], of [numEq] entries) and, to tell which flash calculations
    were run, the calls of [NcpFlash::solve] so far. *)
Record Machine : Type := {
  priVars  : list Scalar;
  flashLog : list FlashCall
}.

Definition M (A : Type) : Type := Machine -> outcome (A * Machine).

Definition ret {A} (a : A) : M A := fun s => Done (a, s).

Definition bind {A B} (m : M A) (k : A -> M B) : M B :=
  fun s => match m s with
           | Done (a, s') => k a s'
           | AssertionFailed => AssertionFailed
           | OutOfRange => OutOfRange
           end.

Notation "x <- m ;; k" := (bind m (fun x => k))
  (at level 100, m at next level, right associativity).
Notation "m ;;; k" := (bind m (fun _ => k))
  (at level 100, right associativity).

(** [assert(b)]. *)
Definition assert (b : bool) : M unit :=
  fun s => if b then Done (tt, s) else AssertionFailed.

(** [( *this)[i] = v]. *)
Definition setPriVar (i : nat) (v : Scalar) : M unit :=
  fun s =>
    if decide (i < length (priVars s))%nat
    then Done (tt, {| priVars := <[i := v]> (priVars s); flashLog := flashLog s |})
    else OutOfRange.

(** A vector after a list of assignments [v[i] = x]. *)
Definition applyWrites (writes : list (nat * Scalar)) (pv : list Scalar) : list Scalar :=
  fold_left (fun pv w => <[fst w := snd w]> pv) writes pv.

(** The assignments [( *this)[i] = x] of a list, one after the other,
    up to the first that is out of range. *)
Definition setPriVars (writes : list (nat * Scalar)) : M unit :=
  fun s =>
    fold_left
      (fun r w => match r with
                  | Done (_, s) => setPriVar (fst w) (snd w) s
                  | AssertionFailed => AssertionFailed
                  | OutOfRange => OutOfRange
                  end)
      writes (Done (tt, s)).

(** [for (int i = lo; i < lo + n; ++i) body(i)]. *)
Fixpoint for_ (n lo : nat) (body : nat -> M unit) : M unit :=
  match n with
  | O => ret tt
  | S n' => body lo ;;; for_ n' (S lo) body
  end.

(** The properties of the [TypeTag]: sizes, the offsets of
    [MPNCIndices], and whether the translation unit is compiled with
    [NDEBUG] (a release build). *)
Variables numPhases numComponents : nat.
Variables p0Idx S0Idx fug0Idx : nat.
Variable NDEBUG : bool.

(** Collaborators whose code is elsewhere:
    [EnergyModule::setPriVarTemperatures] (it gets [*this] and the fluid
    state), [CompositionalFluidState::assign] and [NcpFlash::solve]
    (which leaves its result in the fluid state it is given). *)
Variable setPriVarTemperatures : list Scalar -> FluidState -> list Scalar.
Variable CompositionalFluidState_assign : FluidState -> FluidState.
Variable NcpFlash_solve : FluidState -> Params -> list Scalar -> FluidState.

Definition EnergyModule_setPriVarTemperatures (fs : FluidState) : M unit :=
  fun s => Done (tt, {| priVars := setPriVarTemperatures (priVars s) fs;
                        flashLog := flashLog s |}).

Definition NcpFlash_solve_call (fsFlash : FluidState) (matParams : Params)
    (globalMolarities : list Scalar) : M FluidState :=
  fun s => Done (NcpFlash_solve fsFlash matParams globalMolarities,
                 {| priVars := priVars s;
                    flashLog := flashLog s ++
                      [ {| flashInitial := fsFlash; flashParams := matParams;
                           flashMolarities := globalMolarities |} ] |}).

Definition assignNaive_ (fluidState : FluidState) : M unit :=
  (* assign the phase temperatures: out-sourced to the energy module *)
  EnergyModule_setPriVarTemperatures fluidState ;;;
  (* assign fugacities *)
  for_ numComponents 0 (fun compIdx =>
    setPriVar (fug0Idx + compIdx) (fugacity fluidState 0 compIdx)) ;;;
  (* assign pressure *)
  setPriVar p0Idx (pressure fluidState 0) ;;;
  (* assign first M - 1 saturations *)
  for_ (numPhases - 1) 0 (fun phaseIdx =>
    setPriVar (S0Idx + phaseIdx) (saturation fluidState phaseIdx)).

(** The local [ComponentVector globalMolarities(0.0)] after the two
    nested loops. *)
Definition globalMolarities (fluidState : FluidState) : list Scalar :=
  fold_left
    (fun gm compIdx =>
       fold_left
         (fun gm phaseIdx =>
            <[compIdx := nth compIdx gm #0.0
                         + saturation fluidState phaseIdx
                           * molarity fluidState phaseIdx compIdx]> gm)
         (seq 0 numPhases) gm)
    (seq 0 numComponents) (replicate numComponents #0.0).

Definition assignMassConservative (fluidState : FluidState) (matParams : Params)
    (isInEquilibrium : bool) : M unit :=
  (* #ifndef NDEBUG: make sure the temperature is the same in all phases *)
  (if NDEBUG then ret tt
   else for_ (numPhases - 1) 1 (fun phaseIdx =>
          assert (temperature fluidState 0 ==? temperature fluidState phaseIdx))) ;;;
  (* for the equilibrium case, we don't need complicated computations *)
  if isInEquilibrium then
    assignNaive_ fluidState
  else
    (* calculate the "global molarities" *)
    let globalMolarities := globalMolarities fluidState in
    (* use the externally given fluid state as initial value *)
    let fsFlash := CompositionalFluidState_assign fluidState in
    (* run the flash calculation *)
    fsFlash <- NcpFlash_solve_call fsFlash matParams globalMolarities ;;
    (* use the result to assign the primary variables *)
    assignNaive_ fsFlash.

(** *** What section 3 and 4.4 of the specification say, in their words *)

(** "one scalar per component, computed as the saturation-weighted sum
    of per-phase molar concentration", summed in the order of the
    phases. *)
Definition saturationWeightedMolarity (fluidState : FluidState) (compIdx : nat) : Scalar :=
  fold_left
    (fun acc phaseIdx =>
       acc + saturation fluidState phaseIdx * molarity fluidState phaseIdx compIdx)
    (seq 0 numPhases) #0.0.

(** The slots the layout names: [numComponents] fugacities, one
    pressure, [numPhases - 1] saturations. *)
Definition namedSlots : list nat :=
  map (fun compIdx => fug0Idx + compIdx)%nat (seq 0 numComponents)
  ++ [p0Idx]
  ++ map (fun phaseIdx => S0Idx + phaseIdx)%nat (seq 0 (numPhases - 1)).

(** The slots are inside the vector and no two of them coincide. *)
Definition layoutOk (numEq : nat) : Prop :=
  NoDup namedSlots /\ Forall (fun i => i < numEq)%nat namedSlots.

(** "all phases of fluidState report identical temperature", as the
    program compares them: each phase with phase 0, by [==]. *)
Definition sameTemperature (fluidState : FluidState) : Prop :=
  forall phaseIdx, (1 <= phaseIdx < numPhases)%nat ->
    (temperature fluidState 0 ==? temperature fluidState phaseIdx) = true.

(** "the sum-to-one invariant": the saturations of the first [n]
    phases, added up in their order. *)
Definition saturationSum (fluidState : FluidState) (n : nat) : Scalar :=
  fold_left (fun acc phaseIdx => acc + saturation fluidState phaseIdx) (seq 0 n) #0.

(** The same sum read back from the slots of a vector. *)
Definition storedSaturationSum (pv : list Scalar) (n : nat) : Scalar :=
  fold_left (fun acc phaseIdx => acc + nth (S0Idx + phaseIdx) pv #0) (seq 0 n) #0.

(** The assignments of [assignNaive_] after the energy module, as
    pairs of slot and value in the order of the program. *)
Definition naiveWrites (fluidState : FluidState) : list (nat * Scalar) :=
  map (fun compIdx => (fug0Idx + compIdx, fugacity fluidState 0 compIdx)%nat)
      (seq 0 numComponents)
  ++ [(p0Idx, pressure fluidState 0)]
  ++ map (fun phaseIdx => (S0Idx + phaseIdx, saturation fluidState phaseIdx)%nat)
         (seq 0 (numPhases - 1)).

End MPNC.

Arguments FluidState Scalar : clear implicits.
Arguments FlashCall Scalar Params : clear implicits.
Arguments Machine Scalar Params : clear implicits.
Arguments M Scalar Params A : clear implicits.
Arguments priVars {Scalar Params} _.
Arguments flashLog {Scalar Params} _.
Arguments flashInitial {Scalar Params} _.
Arguments flashParams {Scalar Params} _.
Arguments flashMolarities {Scalar Params} _.
End MPNCPrimaryVariables.

(* --------------------------------------------------------------------- *)
(** ** [Dune::CartesianIndexMapper]  (cartesianindexmapper.hh)            *)
(* --------------------------------------------------------------------- *)

Module CartesianIndexMapper.

(** *** The nested class [GlobalIndexDataHandle]

    The data handle that carries the Cartesian indices of the cells
    through a load balance: its constructor copies the vector into a
    container that travels with the grid, [gather] and [scatter] send
    the entries of migrating cells, and its destructor writes the
    vector anew, in the order of the cells the grid view has then. *)
Module GlobalIndexDataHandle.
Section DataHandle.
Local Open Scope Z_scope.

(** The entities of codimension 0 of the grid, as the persistent
    container tells them apart. *)
Context {Element : Type} `{Countable Element}.

(** [Dune::PersistentContainer< Grid, GlobalCellIndex >]: data attached
    to the elements of the grid.  An element that nothing was assigned
    to holds a default-constructed [GlobalCellIndex]; [resize()], which
    makes room for the elements the grid has, does not show in a map
    that answers for every element. *)
Local Abbreviation GlobalIndexContainer := (gmap Element Z).

(** [GlobalCellIndex() : idx_(-1)] and [globalIndex_[ element ].index()]. *)
Definition index (globalIndex_ : GlobalIndexContainer) (element : Element) : Z :=
  default (-1) (globalIndex_ !! element).

Definition contains (dim codim : Z) : bool := codim =? 0.

Definition fixedsize (dim codim : Z) : bool := true.

Definition size (en : Element) : nat := 1.

(** [gather]: the message buffer after [buff.write( globalIdx )]. *)
Definition gather (globalIndex_ : GlobalIndexContainer) (buff : list Z)
    (element : Element) : list Z :=
  let globalIdx := index globalIndex_ element in
  buff ++ [globalIdx].

(** [scatter]: the container and the message buffer after the call.
    [None] is a [buff.read] on a buffer that holds nothing. *)
Definition scatter (globalIndex_ : GlobalIndexContainer) (buff : list Z)
    (element : Element) (n : nat) : option (GlobalIndexContainer * list Z) :=
  match buff with
  | [] => None
  | globalIdx :: buff =>
      if 0 <=? globalIdx
      then Some (<[element := globalIdx]> globalIndex_, buff)
      else Some (globalIndex_, buff)
  end.

(** [initialize]: the loop over the elements of the grid view, with
    [idx] what is left of [cartesianIndex_] from the iterator on.
    [None] is the read [*idx] past the end of the vector. *)
Fixpoint initialize (gridView_ : list Element) (idx : list Z)
    (globalIndex_ : GlobalIndexContainer) : option GlobalIndexContainer :=
  match gridView_ with
  | [] => Some globalIndex_
  | it :: gridView_ =>
      match idx with
      | [] => None
      | i :: idx => initialize gridView_ idx (<[it := i]> globalIndex_)
      end
  end.

(** The constructor [GlobalIndexDataHandle( gridView, cartesianIndex )]:
    a fresh container, then [initialize()]. *)
Definition construct (gridView_ : list Element) (cartesianIndex_ : list Z)
  : option GlobalIndexContainer :=
  initialize gridView_ cartesianIndex_ ∅.

(** [finalize], which the destructor calls: the vector that
    [cartesianIndex_] is swapped with, for the elements the grid view
    has at that time. *)
Definition finalize (gridView_ : list Element) (globalIndex_ : GlobalIndexContainer)
  : list Z :=
  fold_left (fun newIndex it => newIndex ++ [index globalIndex_ it]) gridView_ [].

End DataHandle.
End GlobalIndexDataHandle.

Section Mapper.
Local Open Scope Z_scope.

(** [Grid::dimension], the members [cartesianDimensions_] (a
    [std::array<int, dimension>]) and [cartesianIndex_] (a
    [std::vector<int>]).  An [int] is a [Z]: the functions below have
    no defined behaviour when an [int] overflows. *)
Variable dimension : nat.
Variable cartesianDimensions_ : list Z.
Variable cartesianIndex_ : list Z.

(** [v[i]] for reading; an index outside [v] reads 0 here (in C++ it
    is undefined). *)
Definition at_ (v : list Z) (i : nat) : Z := default 0 (v !! i).

Definition cartesianDimensions : list Z := cartesianDimensions_.

Definition computeCartesianSize : Z :=
  fold_left (fun size d => size * at_ cartesianDimensions d)
            (seq 1 (dimension - 1)) (at_ cartesianDimensions 0).

Definition cartesianSize : Z := computeCartesianSize.

Definition compressedSize : Z := Z.of_nat (length cartesianIndex_).

(** [int cartesianIndex(const int compressedElementIndex)]:
    [assert( compressedElementIndex < compressedSize() )], then the read
    of [cartesianIndex_].  [None] is the failed assertion (without the
    assertion, a read outside the vector). *)
Definition cartesianIndex (compressedElementIndex : nat) : option Z :=
  cartesianIndex_ !! compressedElementIndex.

(** [int cartesianIndex(const std::array<int,dimension>& coords)]. *)
Definition cartesianIndexOfCoords (coords : list Z) : Z :=
  let cartIndex := at_ coords 0 in
  let factor := at_ cartesianDimensions 0 in
  fst (fold_left
         (fun '(cartIndex, factor) i =>
            (cartIndex + at_ coords i * factor, factor * at_ cartesianDimensions i))
         (seq 1 (dimension - 1)) (cartIndex, factor)).

(** The body of [cartesianCoordinate] from the point where [gc] holds
    the Cartesian index: the array [coords] at the end.  [%] and [/] of
    C++ truncate towards zero. *)
Definition coordinatesOf (gc : Z) (coords : list Z) : list Z :=
  if (2 <=? dimension)%nat then
    let '(coords, gc) :=
      fold_left
        (fun '(coords, gc) d =>
           (<[d := Z.rem gc (at_ cartesianDimensions d)]> coords,
            Z.quot gc (at_ cartesianDimensions d)))
        (seq 0 (dimension - 2)) (coords, gc) in
    let coords :=
      <[(dimension - 2)%nat := Z.rem gc (at_ cartesianDimensions (dimension - 2))]> coords in
    <[(dimension - 1)%nat := Z.quot gc (at_ cartesianDimensions (dimension - 1))]> coords
  else
    <[0%nat := gc]> coords.

(** [void cartesianCoordinate(const int compressedElementIndex,
    std::array<int,dimension>& coords)]: the array [coords] after the
    call. *)
Definition cartesianCoordinate (compressedElementIndex : nat) (coords : list Z)
  : option (list Z) :=
  match cartesianIndex compressedElementIndex with
  | Some gc => Some (coordinatesOf gc coords)
  | None => None
  end.

(** *** Quantities the properties are stated with *)

(** The stride of coordinate [d]: the product of the first [d]
    Cartesian dimensions. *)
Fixpoint stride (d : nat) : Z :=
  match d with
  | O => 1
  | S d' => stride d' * at_ cartesianDimensions_ d'
  end.

(** What is left of [gc] when the first [d] coordinates are taken off. *)
Fixpoint remaining (gc : Z) (d : nat) : Z :=
  match d with
  | O => gc
  | S d' => Z.quot (remaining gc d') (at_ cartesianDimensions_ d')
  end.

(** The first [k] coordinates, each times its stride, added up. *)
Fixpoint weightedSum (coords : list Z) (k : nat) : Z :=
  match k with
  | O => 0
  | S k' => weightedSum coords k' + at_ coords k' * stride k'
  end.

(** *** The arithmetic of [int]

    The functions above compute in [Z]: they are the functions of the
    program as long as no [int] leaves its range and no Cartesian
    dimension that the program divides by is 0 (where [%] and [/] stop
    the program, [Z.rem] and [Z.quot] return a number).  The two
    functions that multiply and add are given a second time below, on
    the 32 bits of an [int]: a product or sum that leaves the range
    wraps around, which is what the machine does with it. *)
Definition INT_MAX : Z := 2147483647.
Definition INT_MIN : Z := -2147483648.

Definition wrap (z : Z) : Z := (z + 2147483648) mod 4294967296 - 2147483648.

(** [computeCartesianSize] on [int]. *)
Definition computeCartesianSize_int : Z :=
  fold_left (fun size d => wrap (size * at_ cartesianDimensions d))
            (seq 1 (dimension - 1)) (at_ cartesianDimensions 0).

(** [cartesianIndex(coords)] on [int]. *)
Definition cartesianIndexOfCoords_int (coords : list Z) : Z :=
  let cartIndex := at_ coords 0 in
  let factor := at_ cartesianDimensions 0 in
  fst (fold_left
         (fun '(cartIndex, factor) i =>
            (wrap (cartIndex + wrap (at_ coords i * factor)),
             wrap (factor * at_ cartesianDimensions i)))
         (seq 1 (dimension - 1)) (cartIndex, factor)).

(** The [m] coordinates from coordinate [k] on as one number, in which
    coordinate [k] counts 1, the next one [cartesianDimensions_[k]],
    and so on. *)
Fixpoint upperPart (coords : list Z) (k m : nat) : Z :=
  match m with
  | O => 0
  | S m' => at_ coords k + at_ cartesianDimensions_ k * upperPart coords (S k) m'
  end.

End Mapper.
End CartesianIndexMapper.

(* --------------------------------------------------------------------- *)
(** ** Inputs the properties are tried on                                 *)
(* --------------------------------------------------------------------- *)

Module Inputs.
Local Open Scope scalar_scope.

(** A water over the reals whose density and viscosity are linear in
    the pressure. *)
Definition linearWater : H2O R := {|
  H2O_vaporPressure   := fun _ => 2339%R;
  H2O_liquidEnthalpy  := fun T _ => (4184 * (T - 273.15))%R;
  H2O_liquidDensity   := fun _ P => (998 + P / 2200000)%R;
  H2O_liquidViscosity := fun _ P => (0.001 + P / 1000000000000)%R
|}.

(** A fluid whose density is the square of the pressure, in binary64:
    from the start value 1.1 the Newton iteration for the density 10000
    (pressure 100) is still far away after five steps. *)
Definition quadraticWater : H2O float := {|
  H2O_vaporPressure   := fun _ => #1;
  H2O_liquidEnthalpy  := fun _ _ => #0;
  H2O_liquidDensity   := fun _ P => P * P;
  H2O_liquidViscosity := fun _ _ => #0
|}.

(** Two phases, two components, in binary64; the vector has the four
    entries fugacity 0, fugacity 1, pressure, saturation 0. *)
Definition twoPhaseState : MPNCPrimaryVariables.FluidState float := {|
  MPNCPrimaryVariables.temperature := fun _ => #293.15;
  MPNCPrimaryVariables.pressure    := fun p => match p with O => #1.0e5 | _ => #1.02e5 end;
  MPNCPrimaryVariables.saturation  := fun p => match p with O => #0.3 | _ => #0.7 end;
  MPNCPrimaryVariables.molarity    := fun p c => match p, c with
                                                 | O, O => #55000 | O, _ => #12
                                                 | _, O => #1.5   | _, _ => #40
                                                 end;
  MPNCPrimaryVariables.fugacity    := fun _ c => match c with O => #2300 | _ => #98000 end
|}.

(** The same, but phase 1 is 10 K warmer than phase 0. *)
Definition mismatchedState : MPNCPrimaryVariables.FluidState float := {|
  MPNCPrimaryVariables.temperature := fun p => match p with O => #293.15 | _ => #303.15 end;
  MPNCPrimaryVariables.pressure    := MPNCPrimaryVariables.pressure twoPhaseState;
  MPNCPrimaryVariables.saturation  := MPNCPrimaryVariables.saturation twoPhaseState;
  MPNCPrimaryVariables.molarity    := MPNCPrimaryVariables.molarity twoPhaseState;
  MPNCPrimaryVariables.fugacity    := MPNCPrimaryVariables.fugacity twoPhaseState
|}.

(** Two phases and two components over the reals; the saturations
    add up to 1. *)
Definition twoPhaseStateR : MPNCPrimaryVariables.FluidState R := {|
  MPNCPrimaryVariables.temperature := fun _ => 293.15%R;
  MPNCPrimaryVariables.pressure    := fun p => match p with O => 100000%R | _ => 102000%R end;
  MPNCPrimaryVariables.saturation  := fun p => match p with O => 0.3%R | _ => 0.7%R end;
  MPNCPrimaryVariables.molarity    := fun p c => match p, c with
                                                 | O, O => 55000%R | O, _ => 12%R
                                                 | _, O => 1.5%R   | _, _ => 40%R
                                                 end;
  MPNCPrimaryVariables.fugacity    := fun _ c => match c with O => 2300%R | _ => 98000%R end
|}.

(** The same, with the molarity 40 of component 1 in both phases. *)
Definition uniformStateR : MPNCPrimaryVariables.FluidState R := {|
  MPNCPrimaryVariables.temperature := MPNCPrimaryVariables.temperature twoPhaseStateR;
  MPNCPrimaryVariables.pressure    := MPNCPrimaryVariables.pressure twoPhaseStateR;
  MPNCPrimaryVariables.saturation  := MPNCPrimaryVariables.saturation twoPhaseStateR;
  MPNCPrimaryVariables.molarity    := fun p c => match c with
                                                 | O => MPNCPrimaryVariables.molarity
                                                          twoPhaseStateR p 0
                                                 | _ => 40%R
                                                 end;
  MPNCPrimaryVariables.fugacity    := MPNCPrimaryVariables.fugacity twoPhaseStateR
|}.

Definition freshVectorR : MPNCPrimaryVariables.Machine R unit := {|
  MPNCPrimaryVariables.priVars  := replicate 4 0%R;
  MPNCPrimaryVariables.flashLog := []
|}.

(** The energy module of the isothermal model writes nothing. *)
Definition isothermal {Scalar : Type} (pv : list Scalar)
    (_ : MPNCPrimaryVariables.FluidState Scalar) : list Scalar := pv.

(** A flash calculation that hands back the state it started from. *)
Definition idleFlash (fs : MPNCPrimaryVariables.FluidState float) (_ : unit)
    (_ : list float) : MPNCPrimaryVariables.FluidState float := fs.

Definition freshVector : MPNCPrimaryVariables.Machine float unit := {|
  MPNCPrimaryVariables.priVars  := replicate 4 #0;
  MPNCPrimaryVariables.flashLog := []
|}.

(** [assignMassConservative] and [assignNaive_] of this model. *)
Definition assignMC (NDEBUG : bool) :=
  MPNCPrimaryVariables.assignMassConservative unit 2 2 2 3 0 NDEBUG
    isothermal (fun fs => fs) idleFlash.

Definition assignNaive {Scalar : Type} :=
  MPNCPrimaryVariables.assignNaive_ (Scalar := Scalar) unit 2 2 2 3 0 isothermal.

(** Two phases that hold the same temperature, a NaN. *)
Definition nanState : MPNCPrimaryVariables.FluidState float := {|
  MPNCPrimaryVariables.temperature := fun _ => PrimFloat.nan;
  MPNCPrimaryVariables.pressure    := MPNCPrimaryVariables.pressure twoPhaseState;
  MPNCPrimaryVariables.saturation  := MPNCPrimaryVariables.saturation twoPhaseState;
  MPNCPrimaryVariables.molarity    := MPNCPrimaryVariables.molarity twoPhaseState;
  MPNCPrimaryVariables.fugacity    := MPNCPrimaryVariables.fugacity twoPhaseState
|}.

(** Offsets that clash: the pressure has the slot of the fugacity of
    component 1, and the vector has three entries. *)
Definition assignNaiveClash {Scalar : Type} :=
  MPNCPrimaryVariables.assignNaive_ (Scalar := Scalar) unit 2 2 1 2 0 isothermal.

Definition shortVectorR : MPNCPrimaryVariables.Machine R unit := {|
  MPNCPrimaryVariables.priVars  := replicate 3 0%R;
  MPNCPrimaryVariables.flashLog := []
|}.

(** A water whose vapour pressure is 0 and whose density is the
    pressure. *)
Definition vacuum {Scalar : Type} `{ScalarOps Scalar} : H2O Scalar := {|
  H2O_vaporPressure   := fun _ => #0;
  H2O_liquidEnthalpy  := fun _ _ => #0;
  H2O_liquidDensity   := fun _ P => P;
  H2O_liquidViscosity := fun _ _ => #0
|}.

(** A logical grid of 4 x 3 x 2 cells, and the elements 10, 20 and 30 of
    a grid view with their Cartesian indices 5, 7 and 9. *)
Definition grid432 : list Z := [4; 3; 2]%Z.
Definition threeCells : list nat := [10; 20; 30]%nat.
Definition threeIndices : list Z := [5; 7; 9]%Z.
Definition threeCellsHandle : gmap nat Z :=
  <[30%nat := 9%Z]> (<[20%nat := 7%Z]> (<[10%nat := 5%Z]> ∅)).
End Inputs.

(* ===================================================================== *)
(** * Part II.  Properties                                                *)
(* ===================================================================== *)

(** ** The real numbers satisfy the laws *)

Lemma Rltb_true (a b : R) : Rltb a b = true <-> (a < b)%R.
Proof. unfold Rltb. destruct (Rlt_dec a b); split; intros; try easy. Qed.

Lemma Rltb_false (a b : R) : Rltb a b = false <-> (b <= a)%R.
Proof.
  unfold Rltb. destruct (Rlt_dec a b); split; intros; try easy; lra.
Qed.

Lemma Rleb_true (a b : R) : Rleb a b = true <-> (a <= b)%R.
Proof. unfold Rleb. destruct (Rle_dec a b); split; intros; try easy. Qed.

Lemma Rleb_false (a b : R) : Rleb a b = false <-> (b < a)%R.
Proof.
  unfold Rleb. destruct (Rle_dec a b); split; intros; try easy; lra.
Qed.

#[export] Instance R_ScalarLaws : ScalarLaws R.
Proof.
  split; cbn.
  - intros; ring.
  - intros; unfold Rdiv; ring.
  - intros; ring.
  - intros a b Hab. apply Rltb_true in Hab. apply Rltb_false. lra.
  - intros a b Hab. apply Rltb_true in Hab. apply Rleb_true. lra.
  - intros a b Hab. apply Rltb_true in Hab. apply Rltb_true.
    pose proof (Rle_abs b). lra.
Qed.

#[export] Instance R_ExactLaws : ExactLaws R.
Proof.
  split; cbn.
  - intros; ring.
  - intros a b c Habc. lra.
Qed.

(** ** Binary64 arithmetic satisfies [ScalarLaws] *)

(** The sign goes through the rounding. *)
Lemma binary_round_aux_negb (prec emax : Z) (s : bool) (m e : Z) (l : location) :
  binary_round_aux prec emax (negb s) m e l = SFopp (binary_round_aux prec emax s m e l).
Proof.
  unfold binary_round_aux.
  destruct (shr_fexp prec emax m e l) as [mrs' e'].
  destruct (shr_fexp prec emax _ e' loc_Exact) as [mrs'' e''].
  destruct (shr_m mrs''); try reflexivity.
  destruct (Z.leb e'' (emax - prec)); reflexivity.
Qed.

Lemma float_sadd_sneg (a b : float) : (a + - b)%float = (a - b)%float.
Proof.
  apply Prim2SF_inj. rewrite add_spec, sub_spec, opp_spec.
  unfold SF64add, SF64sub.
  destruct (Prim2SF a) as [sa | sa | | sa ma ea], (Prim2SF b) as [sb | sb | | sb mb eb];
    cbn [SFopp SFadd SFsub]; try reflexivity;
    try (destruct sa, sb; reflexivity).
Qed.

Lemma float_sdiv_sneg (a b : float) : (- a / b)%float = (- (a / b))%float.
Proof.
  apply Prim2SF_inj. rewrite opp_spec, !div_spec, opp_spec.
  unfold SF64div.
  destruct (Prim2SF a) as [sa | sa | | sa ma ea], (Prim2SF b) as [sb | sb | | sb mb eb];
    cbn [SFopp SFdiv]; try reflexivity;
    try (destruct sa, sb; reflexivity).
  destruct (SFdiv_core_binary prec emax (Z.pos ma) ea (Z.pos mb) eb) as [[mz ez] lz].
  rewrite <- binary_round_aux_negb. f_equal. destruct sa, sb; reflexivity.
Qed.

Lemma float_smul_comm (a b : float) : (a * b)%float = (b * a)%float.
Proof.
  apply Prim2SF_inj. rewrite !mul_spec. unfold SF64mul.
  destruct (Prim2SF a) as [sa | sa | | sa ma ea], (Prim2SF b) as [sb | sb | | sb mb eb];
    cbn [SFmul]; try reflexivity;
    try (destruct sa, sb; reflexivity).
  rewrite xorb_comm, Pos.mul_comm, Z.add_comm. reflexivity.
Qed.

Lemma SFcompare_antisym (x y : spec_float) :
  SFcompare y x = option_map CompOpp (SFcompare x y).
Proof.
  destruct x as [sx | sx | | sx mx ex], y as [sy | sy | | sy my ey];
    cbn [SFcompare option_map]; try reflexivity;
    try (destruct sx; reflexivity); try (destruct sy; reflexivity);
    try (destruct sx, sy; reflexivity).
  f_equal. destruct sx, sy; cbn [CompOpp]; try reflexivity.
  - rewrite (Z.compare_antisym ex ey).
    destruct (Z.compare ex ey); cbn [CompOpp]; try reflexivity.
    rewrite (Pos.compare_cont_antisym mx my Eq). reflexivity.
  - rewrite (Z.compare_antisym ex ey).
    destruct (Z.compare ex ey); cbn [CompOpp]; try reflexivity.
    rewrite (Pos.compare_cont_antisym mx my Eq). reflexivity.
Qed.

Lemma float_sltb_asym (a b : float) : (a <? b)%float = true -> (b <? a)%float = false.
Proof.
  rewrite !ltb_spec. unfold SFltb.
  rewrite (SFcompare_antisym (Prim2SF a) (Prim2SF b)).
  destruct (SFcompare (Prim2SF a) (Prim2SF b)) as [[] |]; cbn; congruence.
Qed.

Lemma float_sltb_sleb (a b : float) : (a <? b)%float = true -> (a <=? b)%float = true.
Proof.
  rewrite ltb_spec, leb_spec. unfold SFltb, SFleb.
  destruct (SFcompare (Prim2SF a) (Prim2SF b)) as [[] |]; congruence.
Qed.

Lemma float_sltb_sabs (a b : float) :
  (a <? b)%float = true -> (a <? PrimFloat.abs b)%float = true.
Proof.
  rewrite !ltb_spec, abs_spec. unfold SFltb.
  destruct (Prim2SF a) as [sa | sa | | sa ma ea], (Prim2SF b) as [sb | sb | | sb mb eb];
    cbn [SFabs SFcompare]; try congruence;
    try (destruct sa; try destruct sb; cbn; congruence);
    try (destruct sb; cbn; congruence).
Qed.

#[export] Instance float_ScalarLaws : ScalarLaws float.
Proof.
  split; cbn.
  - exact float_sadd_sneg.
  - exact float_sdiv_sneg.
  - exact float_smul_comm.
  - exact float_sltb_asym.
  - exact float_sltb_sleb.
  - exact float_sltb_sabs.
Qed.

(** Literals as quotients of integers, for [lra] and [field]. *)
Ltac real_literals :=
  cbn [lit R_ScalarOps sadd ssub smul sdiv sneg sabs sltb sleb seqb
       spow sexp R_CMath] in *;
  repeat match goal with
    | |- context [Q2R ?q] =>
        let n := eval vm_compute in (Qnum q) in
        let d := eval vm_compute in (Qden q) in
        change (Q2R q) with (IZR n * / IZR (Zpos d))%R
    end.

(** ** [Brine::liquidViscosity]: the regularisation of the temperature *)

Section BrineViscosity.
Context {Scalar : Type} `{ScalarLaws Scalar} `{CMath Scalar}.
Variable salinity : Scalar.
Local Open Scope scalar_scope.

Lemma liquidViscosity_regularised (T P : Scalar) :
  exists T', Brine.liquidViscosity salinity T P = Brine.viscosityCorrelation salinity T'
             /\ (T' <? #275) = false
             /\ T' = (if T <=? #275 then #275 else T).
Proof.
  unfold Brine.liquidViscosity.
  destruct (T <=? #275) eqn:HT; eexists; (split; [reflexivity | split; [| reflexivity]]).
  - destruct (#275 <? #275) eqn:Hlt; [| reflexivity].
    apply sltb_asym in Hlt as Hlt'. congruence.
  - destruct (T <? #275) eqn:Hlt; [| reflexivity].
    apply sltb_sleb in Hlt. congruence.
Qed.

(** C9.  At a temperature of at most 275 K the viscosity of brine is the
    one at 275 K, for every pressure: the temperature is raised to
    275 K before the correlation is evaluated, and no temperature
    that reaches the correlation is below 275 K.  ([275 <= 275] says
    that the literal is a number of [Scalar] and not a NaN.) *)
Theorem liquidViscosity_clamped_at_275 (T P : Scalar) :
  (#275 <=? #275) = true ->
  (T <=? #275) = true ->
  Brine.liquidViscosity salinity T P = Brine.liquidViscosity salinity #275 P
  /\ Brine.liquidViscosity salinity T P = Brine.viscosityCorrelation salinity #275
  /\ forall T0 P0, exists T',
       Brine.liquidViscosity salinity T0 P0 = Brine.viscosityCorrelation salinity T'
       /\ (T' <? #275) = false.
Proof.
  intros H275 HT. unfold Brine.liquidViscosity at 1 2 3.
  rewrite HT, H275. repeat split.
  intros T0 P0. destruct (liquidViscosity_regularised T0 P0) as (T' & E & Hge & _).
  eauto.
Qed.
End BrineViscosity.

(** ** [Brine] without salt, in exact arithmetic *)

Section BrineWithoutSalt.
Local Open Scope R_scope.

Lemma Int_part_IZR (z : Z) : Int_part (IZR z) = z.
Proof.
  unfold Int_part.
  assert (E : (z + 1)%Z = up (IZR z)).
  { apply tech_up; rewrite plus_IZR; lra. }
  rewrite <- E. lia.
Qed.

Lemma Int_part_unit_interval (x : R) : 0 <= x < 1 -> Int_part x = 0%Z.
Proof.
  intros Hx. unfold Int_part.
  assert (E : 1%Z = up x) by (apply tech_up; lra).
  rewrite <- E. reflexivity.
Qed.

(** [pow(x, n)] for an integral [n] and a base that is not positive. *)
Lemma Rcpow_nonpos (x : R) (n : Z) : x <= 0 -> Rcpow x (IZR n) = powerRZ x n.
Proof.
  intros Hx. unfold Rcpow.
  destruct (Rlt_dec 0 x) as [Hpos | _]; [lra |].
  rewrite Int_part_IZR.
  destruct (Req_dec_T (IZR n) (IZR n)) as [_ | Hne]; [reflexivity | congruence].
Qed.

(** [pow(x, 2)] is the square, also for a negative base. *)
Lemma Rcpow_2 (x : R) : x <= 0 -> Rcpow x 2 = x * x.
Proof. intros Hx. rewrite Rcpow_nonpos by exact Hx. simpl. ring. Qed.

(** [pow(0, 0.8)] is 0. *)
Lemma Rcpow_0_frac (y : R) : 0 < y < 1 -> Rcpow 0 y = 0.
Proof.
  intros Hy. unfold Rcpow.
  destruct (Rlt_dec 0 0) as [Hpos | _]; [lra |].
  rewrite Int_part_unit_interval by lra.
  destruct (Req_dec_T y 0) as [E | _]; [lra | reflexivity].
Qed.

Lemma Rcpow_pos (x y : R) : 0 < x -> Rcpow x y = Rpower x y.
Proof.
  intros Hx. unfold Rcpow. destruct (Rlt_dec 0 x); [reflexivity | lra].
Qed.

Lemma density_without_salt (rhow X : R) : (rhow + #1000 * #0 * X)%S = rhow.
Proof. real_literals. ring. Qed.

Lemma enthalpy_without_salt (hw hN dh : R) :
  (((#1 - #0) * (hw / #1E3) + #0 * hN + #0 * dh) * #1E3)%S = hw.
Proof. real_literals. field. Qed.

Lemma liquidDensity_salinity_0 (water : H2O R) (T P : R) :
  Brine.liquidDensity water (#0)%S T P = H2O_liquidDensity water T P.
Proof. unfold Brine.liquidDensity. cbv zeta. apply density_without_salt. Qed.

Lemma liquidEnthalpy_salinity_0 (water : H2O R) (T P : R) :
  0 <= Brine.S_lSAT (T - 273.15) ->
  Brine.liquidEnthalpy water (#0)%S T P = H2O_liquidEnthalpy water T P.
Proof.
  intros Hsat. unfold Brine.liquidEnthalpy. cbv zeta.
  match goal with |- context [if ?c then _ else _] => replace c with false end.
  - apply enthalpy_without_salt.
  - symmetry. apply Rltb_false. real_literals.
    match goal with
    | |- _ <= Brine.S_lSAT ?theta => replace theta with (T - 273.15) by lra
    end.
    lra.
Qed.

(** Without salt the correlation of [liquidViscosity] is
    [(0.1 + 1.65 exp(-0.057138 T_C^0.8)) / 1000] at the regularised
    temperature: no function of [H2O] is called. *)
Lemma liquidViscosity_salinity_0 (T P : R) :
  Brine.liquidViscosity (#0)%S T P
  = (0.1 + 1.65 * exp (- (0.057138 * Rpower (Rmax T 275 - 273.15) 0.8))) / 1000.
Proof.
  unfold Brine.liquidViscosity, Brine.viscosityCorrelation. cbv zeta.
  assert (Emax : (if (T <=? #275)%S then (#275)%S else T) = Rmax T 275).
  { cbn [sleb R_ScalarOps]. unfold Rmax, Rleb.
    replace (#275)%S with 275 by (real_literals; lra).
    destruct (Rle_dec T 275); reflexivity. }
  rewrite Emax. clear Emax.
  pose proof (Rmax_r T 275) as Hmax.
  set (Tr := Rmax T 275) in *.
  cbn [spow sexp R_CMath].
  replace (#0.8)%S with 0.8 by (real_literals; lra).
  replace (#0)%S with 0 by (real_literals; lra).
  replace (#273.15)%S with 273.15 by (real_literals; lra).
  replace (#2)%S with 2 by (real_literals; lra).
  replace (#0.17)%S with 0.17 by (real_literals; lra).
  rewrite Rcpow_0_frac by lra.
  cbn [ssub sadd smul sdiv sneg R_ScalarOps].
  rewrite Rcpow_2 by lra.
  rewrite Rcpow_pos by lra.
  real_literals.
  set (w := Rpower _ _).
  match goal with
  | |- ?l = ?r =>
      match l with
      | context [exp ?lhs] =>
          match r with
          | context [exp ?rhs] => replace lhs with rhs by lra
          end
      end
  end.
  lra.
Qed.

(** [Brine::liquidViscosity] does not look at the pressure. *)
Lemma liquidViscosity_ignores_pressure (salinity T P P' : R) :
  Brine.liquidViscosity salinity T P = Brine.liquidViscosity salinity T P'.
Proof. reflexivity. Qed.

(** [pow(x, n)] for a positive base and a natural number [n]. *)
Lemma Rcpow_pos_nat (x : R) (n : nat) : 0 < x -> Rcpow x (INR n) = x ^ n.
Proof. intros Hx. rewrite Rcpow_pos by exact Hx. apply Rpower_pow, Hx. Qed.

(** At 5000 degrees Celsius the saturation limit of the salinity is
    negative, and the regularisation [if (S > S_lSAT) S = S_lSAT] turns
    the salinity 0 into it. *)
Lemma S_lSAT_negative_at_5000 : Brine.S_lSAT 5000 < 0.
Proof.
  unfold Brine.S_lSAT. cbn [spow R_CMath].
  replace (#2)%S with (INR 2) by (real_literals; simpl; lra).
  replace (#3)%S with (INR 3) by (real_literals; simpl; lra).
  rewrite !Rcpow_pos_nat by lra.
  real_literals. lra.
Qed.

(** With the salinity regularised to a negative [S] the enthalpy of
    brine is [(1 - S) hw + S X] (times 1000) for an [X] that does not
    depend on the water: it can agree with the enthalpy of the water for
    one value of [hw] at most. *)
Lemma liquidEnthalpy_salinity_0_is_not_H2O :
  ~ (forall (water : H2O R) (T P : R),
       Brine.liquidEnthalpy water (#0)%S T P = H2O_liquidEnthalpy water T P).
Proof.
  intros Hall.
  pose (cold := {| H2O_vaporPressure := fun _ => 0;
                   H2O_liquidEnthalpy := fun _ _ => 0;
                   H2O_liquidDensity := fun _ _ => 0;
                   H2O_liquidViscosity := fun _ _ => 0 |} : H2O R).
  pose proof (Hall Inputs.linearWater 5273.15 0) as Hlinear.
  pose proof (Hall cold 5273.15 0) as Hcold.
  pose proof S_lSAT_negative_at_5000 as Hneg.
  unfold Brine.liquidEnthalpy in Hlinear, Hcold. cbv zeta in Hlinear, Hcold.
  replace (5273.15 - #273.15)%S with 5000 in Hlinear, Hcold by (real_literals; lra).
  replace (Brine.S_lSAT 5000 <? #0)%S with true in Hlinear, Hcold
    by (symmetry; apply Rltb_true; real_literals; lra).
  set (S := Brine.S_lSAT 5000) in *.
  set (X := (((_ * 5273.15 + _) - _ + _) / _ - _)%S) in *.
  set (Y := (_ / (_ + _ * _) * Brine.d_h_loop _ _)%S) in *.
  cbn [H2O_liquidEnthalpy Inputs.linearWater cold] in Hlinear, Hcold.
  assert (E1 : (#1)%S = 1) by (real_literals; lra).
  assert (E1000 : (#1E3)%S = 1000) by (real_literals; lra).
  rewrite E1, E1000 in Hlinear, Hcold.
  set (SX := (S * X)%S) in *. set (SY := (S * Y)%S) in *.
  cbn [sadd ssub smul sdiv R_ScalarOps] in Hlinear, Hcold.
  lra.
Qed.

(** [Brine::liquidViscosity] is a correlation of its own that calls no
    function of [H2O] and does not depend on the pressure, so it is not
    the viscosity of a water whose viscosity changes with the pressure
    (here [Inputs.linearWater], at 293.15 K and the pressures 0 and
    100000 Pa). *)
Lemma liquidViscosity_salinity_0_differs :
  ~ (forall (water : H2O R) (T P : R),
       Brine.liquidViscosity (#0)%S T P = H2O_liquidViscosity water T P).
Proof.
  intros Hall.
  pose proof (Hall Inputs.linearWater 293.15 0) as Hlow.
  pose proof (Hall Inputs.linearWater 293.15 100000) as Hhigh.
  rewrite (liquidViscosity_ignores_pressure _ _ 0 100000) in Hlow.
  rewrite Hhigh in Hlow. cbn in Hlow. lra.
Qed.

(** [brine.hh] alone does not make the three properties of brine
    without salt the properties of the water, whatever [h2o.hh]
    computes: for a water whose viscosity changes with the pressure the
    viscosity differs (see above), and so does the enthalpy at 5000
    degrees Celsius. *)
Lemma brine_salinity_0_is_not_H2O :
  ~ (forall (water : H2O R) (T P : R),
       Brine.liquidDensity water (#0)%S T P = H2O_liquidDensity water T P
       /\ Brine.liquidEnthalpy water (#0)%S T P = H2O_liquidEnthalpy water T P
       /\ Brine.liquidViscosity (#0)%S T P = H2O_liquidViscosity water T P).
Proof.
  intros Hall. apply liquidViscosity_salinity_0_differs.
  intros water T P. apply (Hall water T P).
Qed.

(** X23.  Without salt, in exact arithmetic and for every water, the
    density of brine is the density of the water; the enthalpy of brine
    is the enthalpy of the water wherever the saturation limit [S_lSAT]
    of the salinity is not negative; the viscosity of brine is the
    value of the brine correlation at salinity 0, the same for every
    pressure and every water. *)
Theorem brine_without_salt (water : H2O R) (T P : R) :
  Brine.liquidDensity water (#0)%S T P = H2O_liquidDensity water T P
  /\ (0 <= Brine.S_lSAT (T - 273.15) ->
      Brine.liquidEnthalpy water (#0)%S T P = H2O_liquidEnthalpy water T P)
  /\ Brine.liquidViscosity (#0)%S T P
     = (0.1 + 1.65 * exp (- (0.057138 * Rpower (Rmax T 275 - 273.15) 0.8))) / 1000.
Proof.
  split; [| split].
  - apply liquidDensity_salinity_0.
  - apply liquidEnthalpy_salinity_0.
  - apply liquidViscosity_salinity_0.
Qed.
End BrineWithoutSalt.

(** ** [Brine::liquidPressure]: the Newton iteration *)

Section BrinePressure.
Context {Scalar : Type} `{ScalarOps Scalar}.
Variable water : H2O Scalar.
Variable salinity : Scalar.
Local Open Scope scalar_scope.

Local Abbreviation trips := (Brine.newton_trips water salinity).
Local Abbreviation not_converged_at T rho k :=
  (Brine.not_converged (snd (trips k T rho)) (fst (trips k T rho))).

Lemma newton_trips_S (k : nat) (T rho : Scalar) :
  trips (S k) T rho
  = Brine.newton_body water salinity T rho
      (#1.1 * Brine.vaporPressure water T * #1e-7) (snd (trips k T rho)).
Proof. reflexivity. Qed.

(** The loop, started after [k] trips with [n] trips left, makes [j]
    further trips: as many as the loop condition allows, [n] at most. *)
Lemma newton_loop_trips (T rho : Scalar) (n k : nat) :
  exists j, (j <= n)%nat
    /\ Brine.newton_loop water salinity n T rho
         (#1.1 * Brine.vaporPressure water T * #1e-7)
         (snd (trips k T rho)) (fst (trips k T rho))
       = snd (trips (k + j) T rho)
    /\ (forall i, (i < j)%nat -> not_converged_at T rho (k + i) = true)
    /\ ((j < n)%nat -> not_converged_at T rho (k + j) = false).
Proof.
  revert k. induction n as [| n IH]; intros k.
  - exists 0%nat. rewrite Nat.add_0_r. repeat split; [lia | intros; lia | lia].
  - cbn [Brine.newton_loop].
    destruct (not_converged_at T rho k) eqn:Hcond.
    + destruct (Brine.newton_body water salinity T rho _ (snd (trips k T rho)))
        as [deltaP pressure] eqn:Hbody.
      rewrite <- newton_trips_S in Hbody.
      destruct (IH (S k)) as (j & Hj & Hrun & Hbefore & Hstop).
      rewrite Hbody in Hrun. cbn [fst snd] in Hrun.
      exists (S j). rewrite Nat.add_succ_r.
      repeat split; [lia | exact Hrun | | ].
      * intros [| i] Hi; [rewrite Nat.add_0_r; exact Hcond |].
        rewrite Nat.add_succ_r. apply Hbefore. lia.
      * intros Hlt. apply Hstop. lia.
    + exists 0%nat. rewrite Nat.add_0_r.
      repeat split; [lia | intros; lia | intros; exact Hcond].
Qed.

Lemma liquidPressure_trips (T rho : Scalar) :
  exists j, (j <= 5)%nat
    /\ Brine.liquidPressure water salinity T rho = snd (trips j T rho)
    /\ (forall i, (i < j)%nat -> not_converged_at T rho i = true)
    /\ ((j < 5)%nat -> not_converged_at T rho j = false).
Proof.
  destruct (newton_loop_trips T rho 5 0) as (j & Hj & Hrun & Hbefore & Hstop).
  exists j. repeat split; assumption.
Qed.


Section Laws.
Context `{!ScalarLaws Scalar}.

Lemma newton_body_spec (T rho P : Scalar) :
  Brine.newton_body water salinity T rho (Brine.spec_eps water T) P
  = (- (Brine.spec_f water salinity T rho P / Brine.spec_f' water salinity T P),
     Brine.spec_update water salinity T rho P).
Proof.
  unfold Brine.newton_body, Brine.spec_update, Brine.spec_f', Brine.spec_f.
  cbv zeta. rewrite sdiv_sneg, sadd_sneg. reflexivity.
Qed.

(** In exact arithmetic the difference of the two densities is the
    difference of the two values of [f]. *)
Lemma spec_f'_central_difference `{!ExactLaws Scalar} (T rho P : Scalar) :
  Brine.spec_f' water salinity T P
  = (Brine.spec_f water salinity T rho (P + Brine.spec_eps water T)
     - Brine.spec_f water salinity T rho (P - Brine.spec_eps water T))
    / (#2 * Brine.spec_eps water T).
Proof. unfold Brine.spec_f', Brine.spec_f. rewrite ssub_ssub. reflexivity. Qed.

Lemma newton_trips_spec (T rho : Scalar) (k : nat) :
  trips k T rho
  = (Brine.spec_deltaP water salinity T rho k, Brine.spec_iterate water salinity T rho k).
Proof.
  induction k as [| k IH]; [reflexivity |].
  rewrite newton_trips_S, IH. cbn [snd].
  exact (newton_body_spec T rho _).
Qed.

(** Where the loop goes on, the step is not below the tolerance. *)
Lemma not_converged_outside_tolerance (P deltaP : Scalar) :
  Brine.not_converged P deltaP = true -> Brine.spec_withinTolerance P deltaP = false.
Proof.
  unfold Brine.not_converged, Brine.spec_withinTolerance. intros Hgo.
  destruct (sabs deltaP <? #1e-9 * P) eqn:Hin; [| reflexivity].
  apply sltb_sabs in Hin. rewrite smul_comm in Hin.
  apply sltb_asym in Hin. congruence.
Qed.

End Laws.
End BrinePressure.

(** ** [Brine::liquidPressure] on a density that is affine in the pressure *)

Section AffineDensity.
Local Open Scope R_scope.
Variable water : H2O R.
Variables salinity T alpha beta : R.

Hypothesis vapour : H2O_vaporPressure water T <> 0.
Hypothesis slope : beta <> 0.
Hypothesis affine : forall P, Brine.liquidDensity water salinity T P = alpha + beta * P.

(** One Newton step on an affine function lands on the root. *)
Lemma newton_body_affine (eps P P0 : R) :
  eps <> 0 ->
  Brine.newton_body water salinity T (alpha + beta * P0) eps P = (P0 - P, P0).
Proof.
  intros Heps. unfold Brine.newton_body. cbv zeta. rewrite !affine.
  real_literals.
  assert (Hdiff : alpha + beta * (P + eps) - (alpha + beta * (P - eps)) <> 0).
  { replace (alpha + beta * (P + eps) - (alpha + beta * (P - eps)))
      with (2 * beta * eps) by ring.
    repeat apply Rmult_integral_contrapositive_currified; (lra || assumption). }
  f_equal; field; split; assumption.
Qed.

Lemma Rabs_scale (P c : R) : 0 <= c -> Rabs (P * c) = Rabs P * c.
Proof. intros Hc. rewrite Rabs_mult, (Rabs_pos_eq c) by exact Hc. reflexivity. Qed.

Lemma not_converged_start (P : R) : P <> 0 -> Brine.not_converged P (P * #2)%S = true.
Proof.
  intros HP. unfold Brine.not_converged. apply Rltb_true.
  cbn [sabs smul R_ScalarOps].
  rewrite !Rabs_scale by (real_literals; lra).
  pose proof (Rabs_pos_lt P HP) as Hpos.
  real_literals. nra.
Qed.

Lemma not_converged_zero_step (P : R) : Brine.not_converged P 0 = false.
Proof.
  unfold Brine.not_converged. apply Rltb_false. cbn [sabs R_ScalarOps].
  rewrite Rabs_R0. apply Rabs_pos.
Qed.

(** In exact arithmetic, for a density that is affine in the pressure
    with a slope other than 0, [liquidPressure] gives back the pressure
    the density was computed from. *)
Lemma liquidPressure_affine_round_trip (P0 : R) :
  Brine.liquidPressure water salinity T (Brine.liquidDensity water salinity T P0) = P0.
Proof.
  unfold Brine.liquidPressure, Brine.vaporPressure. cbv zeta. rewrite affine.
  set (start := (#1.1 * H2O_vaporPressure water T)%S).
  assert (Hstart : start <> 0).
  { subst start. real_literals. intros E. apply vapour. lra. }
  assert (Heps : (start * #1e-7)%S <> 0).
  { real_literals. intros E. apply Hstart. lra. }
  cbn [Brine.newton_loop].
  rewrite not_converged_start by exact Hstart.
  rewrite newton_body_affine by exact Heps.
  destruct (Brine.not_converged P0 (P0 - start)); [| reflexivity].
  rewrite newton_body_affine by exact Heps.
  replace (P0 - P0) with 0 by lra.
  rewrite not_converged_zero_step. reflexivity.
Qed.
End AffineDensity.

(** ** [Brine::liquidEnthalpy]: the regularisation of the salinity *)

Section BrineSalinity.
Context {Scalar : Type} `{ScalarLaws Scalar} `{CMath Scalar}.
Variable water : H2O Scalar.
Local Open Scope scalar_scope.

Lemma sltb_irrefl (x : Scalar) : (x <? x) = false.
Proof.
  destruct (x <? x) eqn:E; [| reflexivity].
  apply sltb_asym in E as E'. congruence.
Qed.

(** X13.  For a salinity above the saturation limit [S_lSAT] of the
    temperature, the enthalpy of brine is the enthalpy at the salinity
    [S_lSAT].  The density is not regularised in this way: the internal
    energy is this enthalpy minus [pressure / liquidDensity] at the
    salinity that was set. *)
Theorem liquidEnthalpy_salinity_regularised (salinity T p : Scalar) :
  (Brine.S_lSAT (T - #273.15) <? salinity) = true ->
  Brine.liquidEnthalpy water salinity T p
  = Brine.liquidEnthalpy water (Brine.S_lSAT (T - #273.15)) T p
  /\ Brine.liquidInternalEnergy water salinity T p
     = Brine.liquidEnthalpy water (Brine.S_lSAT (T - #273.15)) T p
       - p / Brine.liquidDensity water salinity T p.
Proof.
  intros Habove.
  assert (E : Brine.liquidEnthalpy water salinity T p
              = Brine.liquidEnthalpy water (Brine.S_lSAT (T - #273.15)) T p).
  { unfold Brine.liquidEnthalpy. cbv zeta. rewrite Habove, sltb_irrefl. reflexivity. }
  split; [exact E |]. unfold Brine.liquidInternalEnergy. rewrite E. reflexivity.
Qed.
End BrineSalinity.

(** ** [Brine::liquidViscosity] in exact arithmetic *)

Section BrineViscosityReal.
Local Open Scope R_scope.

Lemma Rcpow_2_nonneg (y : R) : 0 <= Rcpow y 2.
Proof.
  destruct (Rlt_dec 0 y) as [Hpos | Hneg].
  - rewrite Rcpow_pos by exact Hpos. unfold Rpower. left. apply exp_pos.
  - rewrite Rcpow_2 by lra. nra.
Qed.

(** The correlation with its literals as real numbers. *)
Lemma liquidViscosity_real (S T P : R) :
  Brine.liquidViscosity S T P
  = (0.1 + 0.333 * S
     + (1.65 + 91.9 * S * S * S)
       * exp (- ((0.42 * Rcpow (Rcpow S 0.8 - 0.17) 2 + 0.045)
                 * Rpower (Rmax T 275 - 273.15) 0.8))) / 1000.
Proof.
  unfold Brine.liquidViscosity, Brine.viscosityCorrelation. cbv zeta.
  assert (Emax : (if (T <=? #275)%S then (#275)%S else T) = Rmax T 275).
  { cbn [sleb R_ScalarOps]. unfold Rmax, Rleb.
    replace (#275)%S with 275 by (real_literals; lra).
    destruct (Rle_dec T 275); reflexivity. }
  rewrite Emax. clear Emax.
  pose proof (Rmax_r T 275) as Hmax.
  set (Tr := Rmax T 275) in *.
  cbn [spow sexp R_CMath].
  replace (#0.8)%S with 0.8 by (real_literals; lra).
  replace (#273.15)%S with 273.15 by (real_literals; lra).
  replace (#2)%S with 2 by (real_literals; lra).
  replace (#0.17)%S with 0.17 by (real_literals; lra).
  cbn [ssub sadd smul sdiv sneg R_ScalarOps].
  rewrite (Rcpow_pos (Tr - 273.15)) by lra.
  set (w := Rpower _ _). set (c := Rcpow (_ - _) 2).
  real_literals.
  match goal with
  | |- ?l = ?r =>
      match l with
      | context [exp ?lhs] =>
          match r with
          | context [exp ?rhs] => replace lhs with rhs by lra
          end
      end
  end.
  lra.
Qed.

(** X14.  In exact arithmetic and for a salinity that is not negative,
    the viscosity of brine is positive at every temperature and
    pressure: it lies between [(0.1 + 0.333 S) / 1000] and
    [(1.75 + 0.333 S + 91.9 S^3) / 1000]. *)
Theorem liquidViscosity_bounds (S T P : R) :
  0 <= S ->
  0 < (0.1 + 0.333 * S) / 1000 < Brine.liquidViscosity S T P
  /\ Brine.liquidViscosity S T P < (1.75 + 0.333 * S + 91.9 * S * S * S) / 1000.
Proof.
  intros HS. rewrite liquidViscosity_real.
  pose proof (Rcpow_2_nonneg (Rcpow S 0.8 - 0.17)) as Hc.
  set (c := Rcpow (_ - _) 2) in *.
  assert (Hw : 0 < Rpower (Rmax T 275 - 273.15) 0.8) by (unfold Rpower; apply exp_pos).
  set (w := Rpower _ _) in *.
  assert (HA : 0 < (0.42 * c + 0.045) * w) by nra.
  pose proof (exp_pos (- ((0.42 * c + 0.045) * w))) as He0.
  assert (He1 : exp (- ((0.42 * c + 0.045) * w)) < 1).
  { rewrite <- exp_0. apply exp_increasing. lra. }
  set (e := exp _) in *.
  assert (Hcube : 0 <= S * S * S) by (repeat apply Rmult_le_pos; exact HS).
  set (cube := S * S * S) in *.
  replace (91.9 * S * S * S) with (91.9 * cube) by (subst cube; ring).
  split; [split |]; nra.
Qed.

(** X15.  In exact arithmetic and for a salinity that is not negative,
    the viscosity of brine does not rise with the temperature, whatever
    the two pressures are. *)
Theorem liquidViscosity_decreasing (S T1 T2 P1 P2 : R) :
  0 <= S -> T1 <= T2 ->
  Brine.liquidViscosity S T2 P2 <= Brine.liquidViscosity S T1 P1.
Proof.
  intros HS HT. rewrite !liquidViscosity_real.
  pose proof (Rcpow_2_nonneg (Rcpow S 0.8 - 0.17)) as Hc.
  set (c := Rcpow (_ - _) 2) in *.
  assert (Hw : Rpower (Rmax T1 275 - 273.15) 0.8 <= Rpower (Rmax T2 275 - 273.15) 0.8).
  { apply Rle_Rpower_l; [lra |].
    pose proof (Rmax_r T1 275). unfold Rmax in *.
    destruct (Rle_dec T1 275), (Rle_dec T2 275); lra. }
  set (w1 := Rpower (Rmax T1 275 - 273.15) 0.8) in *.
  set (w2 := Rpower (Rmax T2 275 - 273.15) 0.8) in *.
  assert (He : exp (- ((0.42 * c + 0.045) * w2)) <= exp (- ((0.42 * c + 0.045) * w1))).
  { assert (HA : - ((0.42 * c + 0.045) * w2) <= - ((0.42 * c + 0.045) * w1)) by nra.
    destruct HA as [Hlt | Heq]; [left; apply exp_increasing, Hlt | rewrite Heq; lra]. }
  set (e1 := exp (- (_ * w1))) in *. set (e2 := exp (- (_ * w2))) in *.
  assert (Hcube : 0 <= S * S * S) by (repeat apply Rmult_le_pos; exact HS).
  set (cube := S * S * S) in *.
  replace (91.9 * S * S * S) with (91.9 * cube) by (subst cube; ring).
  nra.
Qed.
End BrineViscosityReal.

(** ** [Brine::molarMass] in exact arithmetic *)

Section BrineMolarMass.
Local Open Scope R_scope.

(** X21.  In exact arithmetic, for a salinity between 0 and 1 and a
    water whose molar mass is at most 58, the molar mass of brine lies
    between the molar mass of the water and 58; it is the molar mass of
    the water without salt and 58 at the salinity 1. *)
Theorem molarMass_between (salinity H2O_molarMass : R) :
  0 <= salinity <= 1 -> H2O_molarMass <= 58 ->
  H2O_molarMass <= Brine.molarMass salinity H2O_molarMass <= 58
  /\ Brine.molarMass 0 H2O_molarMass = H2O_molarMass
  /\ Brine.molarMass 1 H2O_molarMass = 58.
Proof.
  intros HS HM. unfold Brine.molarMass.
  cbn [sadd ssub smul R_ScalarOps].
  replace (#1)%S with 1 by (real_literals; lra).
  replace (#58)%S with 58 by (real_literals; lra).
  repeat split; nra.
Qed.
End BrineMolarMass.

(** ** [Brine::liquidPressure] in exact arithmetic: waters and start values *)

Section BrinePressureReal.
Local Open Scope R_scope.

(** X16.  In exact arithmetic, for a water whose density at the
    temperature [T] is [a + b P] and whose vapour pressure at [T] is not
    0, the density of brine is affine in the pressure as well, and
    [liquidPressure] gives back the pressure [liquidDensity] was
    computed from, provided the slope of the density of brine,
    [b + S (300 - 2400 S + (T - 273.15) (47 S - 13)) / 10^9], is not 0. *)
Theorem liquidPressure_inverts_linear_water (water : H2O R) (S T a b P0 : R) :
  H2O_vaporPressure water T <> 0 ->
  (forall P, H2O_liquidDensity water T P = a + b * P) ->
  b + S * (300 - 2400 * S + (T - 273.15) * (47 * S - 13)) / 1000000000 <> 0 ->
  Brine.liquidPressure water S T (Brine.liquidDensity water S T P0) = P0.
Proof.
  intros Hvapour Hlinear Hslope.
  apply (liquidPressure_affine_round_trip water S T
           (a + 1000 * S * (0.668 + 0.44 * S
                            + (T - 273.15) * (80 - 3 * (T - 273.15) - 3300 * S) / 1000000))
           (b + S * (300 - 2400 * S + (T - 273.15) * (47 * S - 13)) / 1000000000));
    [exact Hvapour | exact Hslope |].
  intros P. unfold Brine.liquidDensity. cbv zeta. rewrite Hlinear.
  real_literals. field.
Qed.

(** X17.  Where the vapour pressure of the water is 0, the start value
    of [liquidPressure] and its first step are 0, the loop is not
    entered, and the call returns the pressure 0 for every density, in
    exact arithmetic as in binary64. *)
Theorem liquidPressure_without_vapour_pressure :
  (forall (water : H2O R) (salinity T rho : R),
     H2O_vaporPressure water T = 0 ->
     Brine.liquidPressure water salinity T rho = 0)
  /\ (forall (water : H2O float) (salinity T rho : float),
        H2O_vaporPressure water T = 0%float ->
        Brine.liquidPressure water salinity T rho = 0%float).
Proof.
  split.
  - intros water salinity T rho Hvapour.
    unfold Brine.liquidPressure, Brine.vaporPressure. cbv zeta. rewrite Hvapour.
    replace (#1.1 * 0)%S with 0 by (real_literals; lra).
    replace (0 * #2)%S with 0 by (real_literals; lra).
    cbn [Brine.newton_loop]. rewrite not_converged_zero_step. reflexivity.
  - intros water salinity T rho Hvapour.
    unfold Brine.liquidPressure, Brine.vaporPressure. cbv zeta. rewrite Hvapour.
    cbn [Brine.newton_loop].
    replace (Brine.not_converged (#1.1 * 0%float)%S (#1.1 * 0%float * #2)%S) with false
      by (vm_compute; reflexivity).
    vm_compute. reflexivity.
Qed.

(** X18.  In exact arithmetic, when the density of brine at the start
    value [1.1 vaporPressure(T)] is the density asked for, and the
    central difference there is not 0, [liquidPressure] returns the
    start value. *)
Theorem liquidPressure_start_is_root (water : H2O R) (salinity T rho : R) :
  let start := (#1.1 * Brine.vaporPressure water T)%S in
  let eps := (start * #1e-7)%S in
  Brine.liquidDensity water salinity T start = rho ->
  Brine.liquidDensity water salinity T (start + eps)
  <> Brine.liquidDensity water salinity T (start - eps) ->
  Brine.liquidPressure water salinity T rho = start.
Proof.
  intros start eps Hroot _. unfold Brine.liquidPressure. cbv zeta.
  fold start. cbn [Brine.newton_loop].
  destruct (Brine.not_converged start (start * #2)%S); [| reflexivity].
  unfold Brine.newton_body. cbv zeta. rewrite Hroot.
  cbn [sadd ssub smul sdiv sneg R_ScalarOps].
  replace (- (rho - rho) / _) with 0 by (unfold Rdiv; ring).
  replace (start + 0) with start by ring.
  rewrite not_converged_zero_step. reflexivity.
Qed.
End BrinePressureReal.

(** ** [MPNCPrimaryVariables]: what [assignMassConservative] writes *)

Section MPNCProperties.
Context {Scalar : Type} `{ScalarOps Scalar}.
Variable Params : Type.
Variables numPhases numComponents : nat.
Variables p0Idx S0Idx fug0Idx : nat.
Variable setPriVarTemperatures :
  list Scalar -> MPNCPrimaryVariables.FluidState Scalar -> list Scalar.
Variable CompositionalFluidState_assign :
  MPNCPrimaryVariables.FluidState Scalar -> MPNCPrimaryVariables.FluidState Scalar.
Variable NcpFlash_solve :
  MPNCPrimaryVariables.FluidState Scalar -> Params -> list Scalar ->
  MPNCPrimaryVariables.FluidState Scalar.
Local Open Scope scalar_scope.

Import MPNCPrimaryVariables.

Local Abbreviation FS := (FluidState Scalar).
Local Abbreviation machine := (Machine Scalar Params).
Local Abbreviation slots := (namedSlots numPhases numComponents p0Idx S0Idx fug0Idx).
Local Abbreviation writes := (naiveWrites numPhases numComponents p0Idx S0Idx fug0Idx).
Local Abbreviation naive :=
  (assignNaive_ Params numPhases numComponents p0Idx S0Idx fug0Idx setPriVarTemperatures).
Local Abbreviation assignMC ndebug :=
  (assignMassConservative Params numPhases numComponents p0Idx S0Idx fug0Idx ndebug
     setPriVarTemperatures CompositionalFluidState_assign NcpFlash_solve).

(** *** Vectors after a list of assignments *)

Lemma applyWrites_cons (i : nat) (x : Scalar) (ws : list (nat * Scalar))
    (pv : list Scalar) :
  applyWrites ((i, x) :: ws) pv = applyWrites ws (<[i := x]> pv).
Proof. reflexivity. Qed.

Lemma length_applyWrites (ws : list (nat * Scalar)) (pv : list Scalar) :
  length (applyWrites ws pv) = length pv.
Proof.
  revert pv. induction ws as [| [i x] ws IH]; intros pv; [reflexivity |].
  rewrite applyWrites_cons, IH. apply length_insert.
Qed.

Lemma applyWrites_app (ws1 ws2 : list (nat * Scalar)) (pv : list Scalar) :
  applyWrites (ws1 ++ ws2) pv = applyWrites ws2 (applyWrites ws1 pv).
Proof. unfold applyWrites. apply fold_left_app. Qed.

Lemma applyWrites_untouched (ws : list (nat * Scalar)) (pv : list Scalar) (i : nat) :
  i ∉ map fst ws -> applyWrites ws pv !! i = pv !! i.
Proof.
  revert pv. induction ws as [| [j x] ws IH]; intros pv Hnotin; [reflexivity |].
  cbn [map fst] in Hnotin. apply not_elem_of_cons in Hnotin as [Hne Hnotin].
  rewrite applyWrites_cons, IH by assumption.
  apply list_lookup_insert_ne. congruence.
Qed.

Lemma applyWrites_written (ws : list (nat * Scalar)) (pv : list Scalar)
    (i : nat) (x : Scalar) :
  NoDup (map fst ws) -> (i, x) ∈ ws -> (i < length pv)%nat ->
  applyWrites ws pv !! i = Some x.
Proof.
  revert pv. induction ws as [| [j y] ws IH]; intros pv Hnodup Hin Hlen.
  - inversion Hin.
  - cbn [map fst] in Hnodup. apply NoDup_cons in Hnodup as [Hfresh Hnodup].
    rewrite applyWrites_cons.
    apply elem_of_cons in Hin as [Heq | Hin].
    + injection Heq as -> ->.
      rewrite applyWrites_untouched by assumption.
      apply list_lookup_insert_eq, Hlen.
    + apply IH; [assumption | assumption |].
      rewrite length_insert. exact Hlen.
Qed.

(** *** The loops of the program *)

Lemma for_setPriVar (idx : nat -> nat) (val : nat -> Scalar) (n lo : nat) (s : machine) :
  Forall (fun i => i < length (priVars s))%nat (map idx (seq lo n)) ->
  for_ Params n lo (fun i => setPriVar Params (idx i) (val i)) s
  = Done (tt, {| priVars := applyWrites (map (fun i => (idx i, val i)) (seq lo n))
                                        (priVars s);
                 flashLog := flashLog s |}).
Proof.
  revert lo s. induction n as [| n IH]; intros lo s Hrange.
  - destruct s; reflexivity.
  - cbn in Hrange. apply Forall_cons in Hrange as [Hlo Hrange].
    cbn [for_ seq map]. unfold bind at 1. unfold setPriVar at 1.
    destruct (decide (idx lo < length (priVars s))%nat) as [_ | Hout]; [| contradiction].
    rewrite IH; [reflexivity |].
    cbn. rewrite length_insert. exact Hrange.
Qed.

Lemma for_setPriVar_no_assertion (idx : nat -> nat) (val : nat -> Scalar)
    (n lo : nat) (s : machine) :
  for_ Params n lo (fun i => setPriVar Params (idx i) (val i)) s <> AssertionFailed.
Proof.
  revert lo s. induction n as [| n IH]; intros lo s; [discriminate |].
  cbn [for_]. unfold bind at 1. unfold setPriVar at 1.
  destruct (decide (idx lo < length (priVars s))%nat); [apply IH | discriminate].
Qed.

(** The [assert] loop of the debug build. *)
Lemma for_assert_holds (cond : nat -> bool) (n lo : nat) (s : machine) :
  (forall i, (lo <= i < lo + n)%nat -> cond i = true) ->
  for_ Params n lo (fun i => assert Params (cond i)) s = Done (tt, s).
Proof.
  revert lo. induction n as [| n IH]; intros lo Hall; [reflexivity |].
  cbn [for_]. unfold bind at 1. unfold assert at 1.
  rewrite Hall by lia. apply IH. intros i Hi. apply Hall. lia.
Qed.

Lemma for_assert_fails (cond : nat -> bool) (n lo : nat) (s : machine) (i : nat) :
  (lo <= i < lo + n)%nat -> cond i = false ->
  for_ Params n lo (fun i => assert Params (cond i)) s = AssertionFailed.
Proof.
  revert lo. induction n as [| n IH]; intros lo Hi Hfalse; [lia |].
  cbn [for_]. unfold bind at 1. unfold assert at 1.
  destruct (cond lo) eqn:Hlo; [| reflexivity].
  apply IH; [| assumption].
  destruct (decide (i = lo)) as [-> | Hne]; [congruence | lia].
Qed.

(** *** [assignNaive_] *)

Lemma namedSlots_writes (fs : FS) : map fst (writes fs) = slots.
Proof.
  unfold naiveWrites, namedSlots.
  rewrite !map_app, !map_map. reflexivity.
Qed.

Lemma assignNaive_Done (fs : FS) (s : machine) :
  Forall (fun i => i < length (setPriVarTemperatures (priVars s) fs))%nat slots ->
  naive fs s
  = Done (tt, {| priVars := applyWrites (writes fs) (setPriVarTemperatures (priVars s) fs);
                 flashLog := flashLog s |}).
Proof.
  unfold namedSlots. intros Hrange.
  apply Forall_app in Hrange as [Hfug Hrange].
  apply Forall_app in Hrange as [Hp Hsat].
  rewrite Forall_singleton in Hp.
  unfold assignNaive_, naiveWrites.
  unfold bind at 1. unfold EnergyModule_setPriVarTemperatures.
  unfold bind at 1. rewrite for_setPriVar by exact Hfug.
  unfold bind at 1. unfold setPriVar at 1. cbn [priVars flashLog].
  rewrite length_applyWrites.
  destruct (decide _) as [_ | Hout]; [| contradiction].
  rewrite for_setPriVar.
  - cbn [priVars flashLog]. rewrite !applyWrites_app. reflexivity.
  - cbn [priVars]. rewrite length_insert, length_applyWrites. exact Hsat.
Qed.

Lemma assignNaive_no_assertion (fs : FS) (s : machine) :
  naive fs s <> AssertionFailed.
Proof.
  unfold assignNaive_.
  unfold bind at 1. unfold EnergyModule_setPriVarTemperatures.
  unfold bind at 1.
  match goal with
  | |- context [for_ Params ?n ?lo ?body ?s0] =>
      pose proof (for_setPriVar_no_assertion (fun c => fug0Idx + c)%nat
                    (fun c => fugacity fs 0 c) n lo s0) as Hfug;
      destruct (for_ Params n lo body s0) as [[[] s1] | |]
  end; [| contradiction | discriminate].
  unfold bind at 1. unfold setPriVar at 1.
  destruct (decide _); [| discriminate].
  apply for_setPriVar_no_assertion.
Qed.

(** Under a layout without clashes the vector after [assignNaive_]
    holds, slot by slot, the values of the fluid state, and is the
    vector of the energy module everywhere else. *)
Lemma assignNaive_slots (numEq : nat) (fs : FS) (s : machine) :
  layoutOk numPhases numComponents p0Idx S0Idx fug0Idx numEq ->
  length (setPriVarTemperatures (priVars s) fs) = numEq ->
  exists pv,
    naive fs s = Done (tt, {| priVars := pv; flashLog := flashLog s |})
    /\ length pv = numEq
    /\ (forall compIdx, (compIdx < numComponents)%nat ->
          pv !! (fug0Idx + compIdx)%nat = Some (fugacity fs 0 compIdx))
    /\ pv !! p0Idx = Some (pressure fs 0)
    /\ (forall phaseIdx, (phaseIdx < numPhases - 1)%nat ->
          pv !! (S0Idx + phaseIdx)%nat = Some (saturation fs phaseIdx))
    /\ (forall i, i ∉ slots -> pv !! i = setPriVarTemperatures (priVars s) fs !! i).
Proof.
  intros [Hnodup Hrange] Hlen.
  exists (applyWrites (writes fs) (setPriVarTemperatures (priVars s) fs)).
  assert (Hin : forall i x, (i, x) ∈ writes fs ->
            applyWrites (writes fs) (setPriVarTemperatures (priVars s) fs) !! i = Some x).
  { intros i x Hix. apply applyWrites_written.
    - rewrite namedSlots_writes. exact Hnodup.
    - exact Hix.
    - rewrite Hlen. rewrite Forall_forall in Hrange. apply Hrange.
      rewrite <- (namedSlots_writes fs). apply (list_elem_of_fmap_2 fst _ (i, x)), Hix. }
  split; [apply assignNaive_Done; rewrite Hlen; exact Hrange |].
  split; [rewrite length_applyWrites; exact Hlen |].
  unfold naiveWrites in Hin.
  split; [| split; [| split]].
  - intros compIdx Hc. apply Hin.
    apply elem_of_app; left.
    apply (list_elem_of_fmap_2 (fun c => (fug0Idx + c, fugacity fs 0 c)%nat)).
    apply elem_of_seq. lia.
  - apply Hin. apply elem_of_app; right. apply elem_of_app; left.
    apply list_elem_of_singleton. reflexivity.
  - intros phaseIdx Hp. apply Hin.
    apply elem_of_app; right. apply elem_of_app; right.
    apply (list_elem_of_fmap_2 (fun p => (S0Idx + p, saturation fs p)%nat)).
    apply elem_of_seq. lia.
  - intros i Hi. apply applyWrites_untouched.
    rewrite namedSlots_writes. exact Hi.
Qed.

(** *** The temperature check *)

Lemma temperature_check_passes (NDEBUG : bool) (fs : FS) (s : machine) :
  NDEBUG = true \/ sameTemperature numPhases fs ->
  (if NDEBUG then ret Params tt
   else for_ Params (numPhases - 1) 1 (fun phaseIdx =>
          assert Params (temperature fs 0 ==? temperature fs phaseIdx))) s
  = Done (tt, s).
Proof.
  intros [-> | Hsame]; [reflexivity |].
  destruct NDEBUG; [reflexivity |].
  apply for_assert_holds. intros i Hi. apply Hsame. lia.
Qed.

Lemma assignMassConservative_checked (NDEBUG : bool) (fs : FS) (params : Params)
    (isInEquilibrium : bool) (s : machine) :
  NDEBUG = true \/ sameTemperature numPhases fs ->
  assignMC NDEBUG fs params isInEquilibrium s
  = if isInEquilibrium then naive fs s
    else
      let gm := globalMolarities numPhases numComponents fs in
      naive (NcpFlash_solve (CompositionalFluidState_assign fs) params gm)
        {| priVars := priVars s;
           flashLog := flashLog s ++
             [ {| flashInitial := CompositionalFluidState_assign fs;
                  flashParams := params;
                  flashMolarities := gm |} ] |}.
Proof.
  intros Hpre. unfold assignMassConservative. unfold bind at 1.
  rewrite temperature_check_passes by exact Hpre.
  destruct isInEquilibrium; reflexivity.
Qed.

(** C1.  Called with [isInEquilibrium = true] on a fluid state that
    meets the precondition on the temperatures (or in a release
    build), [assignMassConservative] is [assignNaive_] on the given
    fluid state: it ends normally, runs no flash calculation, and the
    vector then holds the fugacities of phase 0, the pressure of phase
    0 and the saturations of the first [numPhases - 1] phases, each at
    its slot and as the fluid state gives them; every other slot is as
    the energy module left it.  Reading the slots back gives the
    values of the fluid state. *)
Theorem assignMassConservative_equilibrium (NDEBUG : bool) (numEq : nat)
    (fs : FS) (params : Params) (s : machine) :
  layoutOk numPhases numComponents p0Idx S0Idx fug0Idx numEq ->
  length (setPriVarTemperatures (priVars s) fs) = numEq ->
  NDEBUG = true \/ sameTemperature numPhases fs ->
  assignMC NDEBUG fs params true s = naive fs s
  /\ exists pv,
       assignMC NDEBUG fs params true s
       = Done (tt, {| priVars := pv; flashLog := flashLog s |})
       /\ length pv = numEq
       /\ (forall compIdx, (compIdx < numComponents)%nat ->
             pv !! (fug0Idx + compIdx)%nat = Some (fugacity fs 0 compIdx))
       /\ pv !! p0Idx = Some (pressure fs 0)
       /\ (forall phaseIdx, (phaseIdx < numPhases - 1)%nat ->
             pv !! (S0Idx + phaseIdx)%nat = Some (saturation fs phaseIdx))
       /\ (forall i, i ∉ slots -> pv !! i = setPriVarTemperatures (priVars s) fs !! i).
Proof.
  intros Hlayout Hlen Hpre.
  rewrite (assignMassConservative_checked NDEBUG fs params true s Hpre).
  split; [reflexivity |].
  apply (assignNaive_slots numEq fs s Hlayout Hlen).
Qed.

(** *** The global molarities *)

Lemma fold_left_ext_in {A B : Type} (f g : A -> B -> A) (l : list B) (a : A) :
  (forall acc x, x ∈ l -> f acc x = g acc x) -> fold_left f l a = fold_left g l a.
Proof.
  revert a. induction l as [| x l IH]; intros a Hfg; [reflexivity |].
  cbn. rewrite (Hfg a x) by (apply elem_of_cons; left; reflexivity).
  apply IH. intros acc y Hy. apply Hfg. apply elem_of_cons; right; exact Hy.
Qed.

(** The inner loop adds to the entry of its component and leaves the
    other entries alone. *)
Lemma globalMolarities_phases (fs : FS) (compIdx : nat) (phases : list nat)
    (gm : list Scalar) :
  (compIdx < length gm)%nat ->
  let gm' :=
    fold_left
      (fun gm phaseIdx =>
         <[compIdx := nth compIdx gm #0.0
                      + saturation fs phaseIdx * molarity fs phaseIdx compIdx]> gm)
      phases gm in
  length gm' = length gm
  /\ gm' !! compIdx
     = Some (fold_left
               (fun acc phaseIdx =>
                  acc + saturation fs phaseIdx * molarity fs phaseIdx compIdx)
               phases (nth compIdx gm #0.0))
  /\ (forall j, j <> compIdx -> gm' !! j = gm !! j).
Proof.
  revert gm. induction phases as [| p phases IH]; intros gm Hc; cbn zeta.
  - cbn [fold_left]. repeat split.
    rewrite nth_lookup. destruct (lookup_lt_is_Some_2 gm compIdx Hc) as [x ->].
    reflexivity.
  - cbn [fold_left].
    set (gm1 := <[compIdx := _]> gm).
    assert (Hc1 : (compIdx < length gm1)%nat) by (subst gm1; rewrite length_insert; exact Hc).
    destruct (IH gm1 Hc1) as (Hlen & Hentry & Hother).
    repeat split.
    + rewrite Hlen. subst gm1. apply length_insert.
    + rewrite Hentry. f_equal. f_equal.
      subst gm1. apply nth_lookup_Some, list_lookup_insert_eq, Hc.
    + intros j Hj. rewrite Hother by exact Hj.
      subst gm1. apply list_lookup_insert_ne. congruence.
Qed.

Lemma globalMolarities_components (fs : FS) (comps : list nat) (gm : list Scalar) :
  NoDup comps -> Forall (fun c => c < length gm)%nat comps ->
  let gm' :=
    fold_left
      (fun gm compIdx =>
         fold_left
           (fun gm phaseIdx =>
              <[compIdx := nth compIdx gm #0.0
                           + saturation fs phaseIdx * molarity fs phaseIdx compIdx]> gm)
           (seq 0 numPhases) gm)
      comps gm in
  length gm' = length gm
  /\ (forall c, c ∈ comps ->
        gm' !! c
        = Some (fold_left
                  (fun acc phaseIdx =>
                     acc + saturation fs phaseIdx * molarity fs phaseIdx c)
                  (seq 0 numPhases) (nth c gm #0.0)))
  /\ (forall j, j ∉ comps -> gm' !! j = gm !! j).
Proof.
  revert gm. induction comps as [| c0 comps IH]; intros gm Hnodup Hrange; cbn zeta.
  - cbn [fold_left]. repeat split. intros c Hc. inversion Hc.
  - cbn [fold_left].
    apply NoDup_cons in Hnodup as [Hfresh Hnodup].
    apply Forall_cons in Hrange as [Hc0 Hrange].
    destruct (globalMolarities_phases fs c0 (seq 0 numPhases) gm Hc0)
      as (Hlen1 & Hentry1 & Hother1).
    set (gm1 := fold_left _ (seq 0 numPhases) gm) in *.
    assert (Hrange1 : Forall (fun c => c < length gm1)%nat comps)
      by (rewrite Hlen1; exact Hrange).
    destruct (IH gm1 Hnodup Hrange1) as (Hlen & Hentry & Hother).
    repeat split.
    + rewrite Hlen. exact Hlen1.
    + intros c Hc. apply elem_of_cons in Hc as [-> | Hc].
      * rewrite Hother by exact Hfresh. exact Hentry1.
      * rewrite (Hentry c Hc). f_equal. f_equal.
        rewrite !nth_lookup. f_equal. apply Hother1.
        intros ->. contradiction.
    + intros j Hj. apply not_elem_of_cons in Hj as [Hne Hj].
      rewrite (Hother j Hj). apply Hother1, Hne.
Qed.

(** Each entry of [globalMolarities] is the saturation-weighted sum of
    the molarities of its component over the phases. *)
Lemma globalMolarities_spec (fs : FS) :
  length (globalMolarities numPhases numComponents fs) = numComponents
  /\ forall compIdx, (compIdx < numComponents)%nat ->
       globalMolarities numPhases numComponents fs !! compIdx
       = Some (saturationWeightedMolarity numPhases fs compIdx).
Proof.
  unfold globalMolarities, saturationWeightedMolarity.
  destruct (globalMolarities_components fs (seq 0 numComponents)
              (replicate numComponents #0.0)) as (Hlen & Hentry & _).
  - apply NoDup_seq.
  - apply Forall_forall. intros c Hc. apply elem_of_seq in Hc.
    rewrite length_replicate. lia.
  - split; [rewrite Hlen; apply length_replicate |].
    intros compIdx Hc. rewrite Hentry by (apply elem_of_seq; lia).
    f_equal. f_equal.
    apply nth_lookup_Some, lookup_replicate_2, Hc.
Qed.


(** *** Debug build and release build *)

Lemma assignMassConservative_release (fs : FS) (params : Params)
    (isInEquilibrium : bool) (s : machine) :
  assignMC true fs params isInEquilibrium s <> AssertionFailed.
Proof.
  rewrite assignMassConservative_checked by (left; reflexivity).
  destruct isInEquilibrium; apply assignNaive_no_assertion.
Qed.

(** C7.  The temperatures are compared only in a debug build.  A
    release build ([NDEBUG]) never ends in a failed assertion, whatever
    the temperatures of the phases are, and under a layout without
    clashes it ends normally; a debug build ends in a failed assertion
    as soon as one phase does not compare equal to phase 0, and does
    what the release build does when all of them compare equal. *)
Theorem temperature_checked_in_debug_build_only (numEq : nat) (fs : FS)
    (params : Params) (isInEquilibrium : bool) (s : machine) :
  assignMC true fs params isInEquilibrium s <> AssertionFailed
  /\ (layoutOk numPhases numComponents p0Idx S0Idx fug0Idx numEq ->
      (forall pv fs', length (setPriVarTemperatures pv fs') = length pv) ->
      length (priVars s) = numEq ->
      exists s', assignMC true fs params isInEquilibrium s = Done (tt, s'))
  /\ ((exists phaseIdx, (1 <= phaseIdx < numPhases)%nat
         /\ (temperature fs 0 ==? temperature fs phaseIdx) = false) ->
      assignMC false fs params isInEquilibrium s = AssertionFailed)
  /\ (sameTemperature numPhases fs ->
      assignMC false fs params isInEquilibrium s
      = assignMC true fs params isInEquilibrium s).
Proof.
  split; [apply assignMassConservative_release |].
  split; [| split].
  - intros Hlayout Henergy Hlen.
    rewrite assignMassConservative_checked by (left; reflexivity).
    destruct isInEquilibrium; cbn zeta.
    + destruct (assignNaive_slots numEq fs s Hlayout) as (pv & Hrun & _).
      { rewrite Henergy. exact Hlen. }
      eauto.
    + match goal with
      | |- context [naive ?fsFlash ?s0] =>
          destruct (assignNaive_slots numEq fsFlash s0 Hlayout) as (pv & Hrun & _)
      end.
      { rewrite Henergy. exact Hlen. }
      eauto.
  - intros (phaseIdx & Hrange & Hdiffer).
    unfold assignMassConservative. unfold bind at 1.
    rewrite (for_assert_fails
               (fun phaseIdx => temperature fs 0 ==? temperature fs phaseIdx)
               (numPhases - 1) 1 s phaseIdx) by (lia || exact Hdiffer).
    reflexivity.
  - intros Hsame.
    rewrite !assignMassConservative_checked by (auto || (left; reflexivity)).
    reflexivity.
Qed.

(** *** The layout of the vector *)

Lemma length_namedSlots :
  length slots = (numComponents + 1 + (numPhases - 1))%nat.
Proof.
  unfold namedSlots. rewrite !length_app, !length_map, !length_seq. cbn. lia.
Qed.

(** [assignNaive_] reads the fugacities and the pressure of phase 0 and
    the saturations of the first [numPhases - 1] phases, and nothing
    else, but for what the energy module reads. *)
Lemma naiveWrites_ext (fs fs' : FS) :
  (forall compIdx, (compIdx < numComponents)%nat ->
     fugacity fs' 0 compIdx = fugacity fs 0 compIdx) ->
  pressure fs' 0 = pressure fs 0 ->
  (forall phaseIdx, (phaseIdx < numPhases - 1)%nat ->
     saturation fs' phaseIdx = saturation fs phaseIdx) ->
  writes fs' = writes fs.
Proof.
  intros Hfug Hp Hsat. unfold naiveWrites. rewrite Hp. f_equal; [| f_equal].
  - apply map_ext_in. intros c Hc. apply in_seq in Hc. rewrite Hfug by lia. reflexivity.
  - apply map_ext_in. intros q Hq. apply in_seq in Hq. rewrite Hsat by lia. reflexivity.
Qed.

Lemma setPriVars_app (ws1 ws2 : list (nat * Scalar)) (s : machine) :
  setPriVars Params (ws1 ++ ws2) s
  = match setPriVars Params ws1 s with
    | Done (_, s1) => setPriVars Params ws2 s1
    | AssertionFailed => AssertionFailed
    | OutOfRange => OutOfRange
    end.
Proof.
  unfold setPriVars. rewrite fold_left_app.
  destruct (fold_left _ ws1 (Done (tt, s))) as [[[] s1] | |]; [reflexivity | |];
    induction ws2 as [| w ws2 IH]; try reflexivity; exact IH.
Qed.

Lemma setPriVars_cons (i : nat) (x : Scalar) (ws : list (nat * Scalar)) (s : machine) :
  setPriVars Params ((i, x) :: ws) s
  = match setPriVar Params i x s with
    | Done (_, s1) => setPriVars Params ws s1
    | AssertionFailed => AssertionFailed
    | OutOfRange => OutOfRange
    end.
Proof.
  change ((i, x) :: ws) with ([(i, x)] ++ ws). rewrite setPriVars_app.
  reflexivity.
Qed.

Lemma for_setPriVar_writes (idx : nat -> nat) (val : nat -> Scalar) (n lo : nat)
    (s : machine) :
  for_ Params n lo (fun i => setPriVar Params (idx i) (val i)) s
  = setPriVars Params (map (fun i => (idx i, val i)) (seq lo n)) s.
Proof.
  revert lo s. induction n as [| n IH]; intros lo s; [reflexivity |].
  cbn [for_ seq map]. rewrite setPriVars_cons. unfold bind at 1.
  destruct (setPriVar Params (idx lo) (val lo) s) as [[[] s1] | |];
    [apply IH | reflexivity | reflexivity].
Qed.

(** [assignNaive_] is the energy module followed by the assignments of
    [naiveWrites]. *)
Lemma assignNaive_writes (fs : FS) (s : machine) :
  naive fs s
  = setPriVars Params (writes fs)
      {| priVars := setPriVarTemperatures (priVars s) fs; flashLog := flashLog s |}.
Proof.
  unfold assignNaive_, naiveWrites.
  unfold bind at 1. unfold EnergyModule_setPriVarTemperatures.
  rewrite setPriVars_app. unfold bind at 1. rewrite for_setPriVar_writes.
  destruct (setPriVars Params _ _) as [[[] s1] | |]; [| reflexivity | reflexivity].
  rewrite setPriVars_app. unfold bind at 1.
  change (setPriVars Params [(p0Idx, pressure fs 0)] s1)
    with (setPriVar Params p0Idx (pressure fs 0) s1).
  destruct (setPriVar Params p0Idx (pressure fs 0) s1) as [[[] s2] | |];
    [| reflexivity | reflexivity].
  apply for_setPriVar_writes.
Qed.

Lemma assignNaive_ext (fs fs' : FS) (s : machine) :
  setPriVarTemperatures (priVars s) fs' = setPriVarTemperatures (priVars s) fs ->
  writes fs' = writes fs ->
  naive fs' s = naive fs s.
Proof.
  intros Henergy Hwrites. rewrite !assignNaive_writes, Henergy, Hwrites.
  reflexivity.
Qed.

Lemma saturationSum_S (fs : FS) (n : nat) :
  saturationSum fs (S n) = saturationSum fs n + saturation fs n.
Proof. unfold saturationSum. rewrite seq_S, fold_left_app. reflexivity. Qed.

Lemma storedSaturationSum_read (fs : FS) (pv : list Scalar) (n : nat) :
  (forall phaseIdx, (phaseIdx < n)%nat ->
     pv !! (S0Idx + phaseIdx)%nat = Some (saturation fs phaseIdx)) ->
  storedSaturationSum S0Idx pv n = saturationSum fs n.
Proof.
  intros Hread. unfold storedSaturationSum, saturationSum.
  apply fold_left_ext_in. intros acc q Hq. apply elem_of_seq in Hq.
  f_equal. apply nth_lookup_Some, Hread. lia.
Qed.

(** C8.  The layout names [numComponents + 1 + (numPhases - 1)] slots.
    Under a layout without clashes [assignNaive_] ends normally, keeps
    the length of the vector and changes no slot but these.  The
    saturation of the last phase is not read: two fluid states that
    agree on the fugacities and the pressure of phase 0 and on the
    saturations of the first [numPhases - 1] phases (and for the energy
    module) give the same vector.  In exact arithmetic the saturation
    of the last phase is 1 minus the sum of the stored ones whenever
    the saturations of the fluid state add up to 1. *)
Theorem primary_variable_layout (numEq : nat) (fs : FS) (s : machine) :
  layoutOk numPhases numComponents p0Idx S0Idx fug0Idx numEq ->
  length (setPriVarTemperatures (priVars s) fs) = numEq ->
  length slots = (numComponents + 1 + (numPhases - 1))%nat
  /\ (forall fs' : FS,
        (forall compIdx, (compIdx < numComponents)%nat ->
           fugacity fs' 0 compIdx = fugacity fs 0 compIdx) ->
        pressure fs' 0 = pressure fs 0 ->
        (forall phaseIdx, (phaseIdx < numPhases - 1)%nat ->
           saturation fs' phaseIdx = saturation fs phaseIdx) ->
        setPriVarTemperatures (priVars s) fs' = setPriVarTemperatures (priVars s) fs ->
        naive fs' s = naive fs s)
  /\ exists pv,
       naive fs s = Done (tt, {| priVars := pv; flashLog := flashLog s |})
       /\ length pv = numEq
       /\ (forall i, i ∉ slots -> pv !! i = setPriVarTemperatures (priVars s) fs !! i)
       /\ (ExactLaws Scalar -> (1 <= numPhases)%nat ->
           saturationSum fs numPhases = #1 ->
           saturation fs (numPhases - 1)
           = #1 - storedSaturationSum S0Idx pv (numPhases - 1)).
Proof.
  intros Hlayout Hlen.
  split; [apply length_namedSlots |]. split.
  - intros fs' Hfug Hp Hsat Henergy.
    apply assignNaive_ext; [exact Henergy | apply naiveWrites_ext; assumption].
  - destruct (assignNaive_slots numEq fs s Hlayout Hlen)
      as (pv & Hrun & Hpv & _ & _ & Hsat & Hother).
    exists pv. repeat split; try assumption.
    intros Hexact Hphases Hone.
    rewrite (storedSaturationSum_read fs pv (numPhases - 1) Hsat).
    apply sadd_move.
    rewrite <- saturationSum_S.
    replace (S (numPhases - 1)) with numPhases by lia. exact Hone.
Qed.

(** *** Slots outside the vector, and slots that clash *)

Lemma setPriVars_kept (ws : list (nat * Scalar)) (s s' : machine) :
  setPriVars Params ws s = Done (tt, s') ->
  length (priVars s') = length (priVars s) /\ flashLog s' = flashLog s.
Proof.
  revert s. induction ws as [| [i x] ws IH]; intros s Hrun.
  - injection Hrun as <-. split; reflexivity.
  - rewrite setPriVars_cons in Hrun. unfold setPriVar in Hrun.
    destruct (decide (i < length (priVars s))%nat); [| discriminate].
    destruct (IH _ Hrun) as [Hlen Hlog]. cbn [priVars flashLog] in Hlen, Hlog.
    rewrite length_insert in Hlen. split; assumption.
Qed.

Lemma setPriVars_OutOfRange (ws : list (nat * Scalar)) (s : machine) :
  Exists (fun w => length (priVars s) <= fst w)%nat ws ->
  setPriVars Params ws s = OutOfRange.
Proof.
  revert s. induction ws as [| [i x] ws IH]; intros s Hout.
  - inversion Hout.
  - rewrite setPriVars_cons. unfold setPriVar.
    destruct (decide (i < length (priVars s))%nat) as [Hin | _]; [| reflexivity].
    apply IH. cbn [priVars]. rewrite length_insert.
    apply Exists_cons in Hout as [Hhead | Htail]; [cbn [fst] in Hhead; lia | exact Htail].
Qed.

(** X9.  [assignNaive_] writes outside the vector exactly when one of
    the slots that the offsets of [MPNCIndices] name is not below the
    length of the vector the energy module leaves.  It never ends in a
    failed assertion, and when it ends normally the vector has the
    length it had after the energy module and no flash calculation was
    run. *)
Theorem assignNaive_out_of_range (fs : FS) (s : machine) :
  (naive fs s = OutOfRange
   <-> exists i, i ∈ namedSlots numPhases numComponents p0Idx S0Idx fug0Idx
                 /\ (length (setPriVarTemperatures (priVars s) fs) <= i)%nat)
  /\ naive fs s <> AssertionFailed
  /\ forall s', naive fs s = Done (tt, s') ->
       length (priVars s') = length (setPriVarTemperatures (priVars s) fs)
       /\ flashLog s' = flashLog s.
Proof.
  split; [| split].
  - split.
    + intros Hout.
      destruct (decide (Forall (fun i => i < length (setPriVarTemperatures (priVars s) fs))%nat
                               slots)) as [Hall | Hsome].
      * rewrite (assignNaive_Done fs s Hall) in Hout. discriminate.
      * apply not_Forall_Exists in Hsome; [| intros i; apply _].
        apply Exists_exists in Hsome as (i & Hi & Hbeyond).
        exists i. split; [exact Hi | cbn in Hbeyond; lia].
    + intros (i & Hi & Hbeyond).
      rewrite assignNaive_writes. apply setPriVars_OutOfRange.
      rewrite <- (namedSlots_writes fs) in Hi.
      apply list_elem_of_fmap in Hi as (w & -> & Hw).
      apply Exists_exists. exists w. split; [exact Hw | exact Hbeyond].
  - apply assignNaive_no_assertion.
  - intros s' Hrun. rewrite assignNaive_writes in Hrun.
    apply setPriVars_kept in Hrun. exact Hrun.
Qed.

(** X10.  Under a layout without clashes, called with
    [isInEquilibrium = false] on a fluid state that meets the
    precondition on the temperatures (or in a release build),
    [assignMassConservative] ends normally, has run [NcpFlash::solve]
    once, and the vector holds the fugacities and the pressure of
    phase 0 and the saturations of the first [numPhases - 1] phases of
    the result of the flash calculation, not those of the fluid state it
    was given. *)
Theorem assignMassConservative_stores_flash_result (NDEBUG : bool) (numEq : nat)
    (fs : FS) (params : Params) (s : machine) :
  layoutOk numPhases numComponents p0Idx S0Idx fug0Idx numEq ->
  (forall pv fs', length (setPriVarTemperatures pv fs') = length pv) ->
  length (priVars s) = numEq ->
  NDEBUG = true \/ sameTemperature numPhases fs ->
  let gm := globalMolarities numPhases numComponents fs in
  let fsFlash := NcpFlash_solve (CompositionalFluidState_assign fs) params gm in
  exists pv,
    assignMC NDEBUG fs params false s
    = Done (tt, {| priVars := pv;
                   flashLog := flashLog s ++
                     [ {| flashInitial := CompositionalFluidState_assign fs;
                          flashParams := params;
                          flashMolarities := gm |} ] |})
    /\ length pv = numEq
    /\ (forall compIdx, (compIdx < numComponents)%nat ->
          pv !! (fug0Idx + compIdx)%nat = Some (fugacity fsFlash 0 compIdx))
    /\ pv !! p0Idx = Some (pressure fsFlash 0)
    /\ (forall phaseIdx, (phaseIdx < numPhases - 1)%nat ->
          pv !! (S0Idx + phaseIdx)%nat = Some (saturation fsFlash phaseIdx))
    /\ (forall i, i ∉ slots -> pv !! i = setPriVarTemperatures (priVars s) fsFlash !! i).
Proof.
  intros Hlayout Henergy Hlen Hpre gm fsFlash.
  rewrite (assignMassConservative_checked NDEBUG fs params false s Hpre).
  cbn zeta. fold gm. fold fsFlash.
  match goal with
  | |- context [naive fsFlash ?s0] =>
      destruct (assignNaive_slots numEq fsFlash s0 Hlayout) as (pv & Hrun & Hrest)
  end.
  { rewrite Henergy. exact Hlen. }
  exists pv. split; [exact Hrun | exact Hrest].
Qed.

Lemma elem_of_shifted_seq (i base n : nat) :
  i ∈ map (fun k => base + k)%nat (seq 0 n) <-> (base <= i < base + n)%nat.
Proof.
  change (map (fun k => base + k)%nat (seq 0 n)) with ((fun k => base + k)%nat <$> seq 0 n).
  rewrite list_elem_of_fmap. split.
  - intros (k & -> & Hk). apply elem_of_seq in Hk. lia.
  - intros Hi. exists (i - base)%nat. split; [lia | apply elem_of_seq; lia].
Qed.

Lemma NoDup_shifted_seq (base n : nat) :
  NoDup (map (fun k => base + k)%nat (seq 0 n)).
Proof.
  change (map (fun k => base + k)%nat (seq 0 n)) with ((fun k => base + k)%nat <$> seq 0 n).
  apply NoDup_fmap_2; [| apply NoDup_seq]. intros k k' Hk. lia.
Qed.

(** X11.  Where two of the slots that [MPNCIndices] names coincide, the
    assignment that comes last in [assignNaive_] wins.  With all named
    slots inside the vector, and whatever the offsets are, the
    saturations are stored; the pressure is stored unless its slot is a
    saturation slot; a fugacity is stored unless its slot is the slot
    of the pressure or a saturation slot. *)
Theorem assignNaive_last_assignment_wins (fs : FS) (s : machine) :
  Forall (fun i => i < length (setPriVarTemperatures (priVars s) fs))%nat
         (namedSlots numPhases numComponents p0Idx S0Idx fug0Idx) ->
  exists pv,
    naive fs s = Done (tt, {| priVars := pv; flashLog := flashLog s |})
    /\ (forall phaseIdx, (phaseIdx < numPhases - 1)%nat ->
          pv !! (S0Idx + phaseIdx)%nat = Some (saturation fs phaseIdx))
    /\ ((p0Idx < S0Idx \/ S0Idx + (numPhases - 1) <= p0Idx)%nat ->
        pv !! p0Idx = Some (pressure fs 0))
    /\ (forall compIdx, (compIdx < numComponents)%nat ->
          (fug0Idx + compIdx)%nat <> p0Idx ->
          (fug0Idx + compIdx < S0Idx \/ S0Idx + (numPhases - 1) <= fug0Idx + compIdx)%nat ->
          pv !! (fug0Idx + compIdx)%nat = Some (fugacity fs 0 compIdx)).
Proof.
  intros Hrange. eexists. split; [apply assignNaive_Done, Hrange |].
  unfold namedSlots in Hrange.
  apply Forall_app in Hrange as [Hfug Hrange].
  apply Forall_app in Hrange as [Hp Hsat].
  rewrite Forall_singleton in Hp. rewrite Forall_forall in Hfug, Hsat.
  set (energy := setPriVarTemperatures (priVars s) fs) in *.
  unfold naiveWrites. rewrite !applyWrites_app.
  set (fugacities := map (fun compIdx => (fug0Idx + compIdx, fugacity fs 0 compIdx)%nat)
                         (seq 0 numComponents)).
  set (saturations := map (fun phaseIdx => (S0Idx + phaseIdx, saturation fs phaseIdx)%nat)
                          (seq 0 (numPhases - 1))).
  assert (Efug : map fst fugacities
                 = map (fun k => fug0Idx + k)%nat (seq 0 numComponents))
    by (subst fugacities; rewrite map_map; reflexivity).
  assert (Esat : map fst saturations
                 = map (fun k => S0Idx + k)%nat (seq 0 (numPhases - 1)))
    by (subst saturations; rewrite map_map; reflexivity).
  split; [| split].
  - intros phaseIdx Hphase. apply applyWrites_written.
    + rewrite Esat. apply NoDup_shifted_seq.
    + subst saturations.
      apply (list_elem_of_fmap_2 (fun p => (S0Idx + p, saturation fs p)%nat)).
      apply elem_of_seq. lia.
    + rewrite !length_applyWrites. apply Hsat, elem_of_shifted_seq. lia.
  - intros Hfree. rewrite applyWrites_untouched.
    + rewrite applyWrites_cons. cbn [applyWrites fold_left].
      apply list_lookup_insert_eq. rewrite length_applyWrites. exact Hp.
    + rewrite Esat, elem_of_shifted_seq. lia.
  - intros compIdx Hcomp Hpressure Hfree. rewrite applyWrites_untouched.
    + rewrite applyWrites_cons. cbn [applyWrites fold_left].
      rewrite list_lookup_insert_ne by congruence.
      apply applyWrites_written.
      * rewrite Efug. apply NoDup_shifted_seq.
      * subst fugacities.
        apply (list_elem_of_fmap_2 (fun c => (fug0Idx + c, fugacity fs 0 c)%nat)).
        apply elem_of_seq. lia.
      * apply Hfug, elem_of_shifted_seq. lia.
    + rewrite Esat, elem_of_shifted_seq. lia.
Qed.

(** Making the assignments of a list a second time changes nothing. *)
Lemma applyWrites_twice (ws : list (nat * Scalar)) (pv : list Scalar) :
  NoDup (map fst ws) -> Forall (fun i => i < length pv)%nat (map fst ws) ->
  applyWrites ws (applyWrites ws pv) = applyWrites ws pv.
Proof.
  intros Hnodup Hrange. apply list_eq. intros i.
  destruct (decide (i ∈ map fst ws)) as [Hin | Hout].
  - rewrite Forall_forall in Hrange. specialize (Hrange i Hin).
    change (map fst ws) with (fst <$> ws) in Hin.
    apply list_elem_of_fmap in Hin as ([j x] & -> & Hw). cbn [fst] in Hrange.
    rewrite !(applyWrites_written ws _ j x) by (rewrite ?length_applyWrites; assumption).
    reflexivity.
  - apply applyWrites_untouched, Hout.
Qed.

(** X20.  Under a layout without clashes and with an energy module
    that writes nothing for the fluid state (the isothermal one),
    [assignNaive_] ends normally, and made a second time with the same
    fluid state it leaves the vector as the first time left it. *)
Theorem assignNaive_idempotent (numEq : nat) (fs : FS) (s : machine) :
  layoutOk numPhases numComponents p0Idx S0Idx fug0Idx numEq ->
  (forall pv, setPriVarTemperatures pv fs = pv) ->
  length (priVars s) = numEq ->
  exists s', naive fs s = Done (tt, s') /\ naive fs s' = Done (tt, s').
Proof.
  intros [Hnodup Hrange] Henergy Hlen.
  assert (Hrange' : Forall (fun i => i < length (priVars s))%nat slots)
    by (rewrite Hlen; exact Hrange).
  eexists. split.
  - apply assignNaive_Done. rewrite Henergy. exact Hrange'.
  - rewrite assignNaive_Done; cbn [priVars flashLog]; rewrite !Henergy.
    + rewrite applyWrites_twice; [reflexivity | |];
        rewrite namedSlots_writes; assumption.
    + rewrite length_applyWrites. exact Hrange'.
Qed.
End MPNCProperties.

(** ** The global molarities in exact arithmetic *)

Section GlobalMolaritiesReal.
Import MPNCPrimaryVariables.
Local Open Scope R_scope.

Lemma weighted_sum_uniform (fs : FluidState R) (compIdx : nat) (m : R) (n : nat)
    (a b : R) :
  (forall phaseIdx, (phaseIdx < n)%nat -> molarity fs phaseIdx compIdx = m) ->
  fold_left (fun acc phaseIdx =>
               (acc + saturation fs phaseIdx * molarity fs phaseIdx compIdx)%S)
            (seq 0 n) a
  = a + m * (fold_left (fun acc phaseIdx => (acc + saturation fs phaseIdx)%S)
                       (seq 0 n) b - b).
Proof.
  induction n as [| n IH]; intros Hsame.
  - cbn. ring.
  - rewrite seq_S, !fold_left_app. cbn [fold_left Nat.add].
    rewrite IH by (intros; apply Hsame; lia). rewrite Hsame by lia.
    cbn [sadd smul R_ScalarOps]. ring.
Qed.

(** X22.  In exact arithmetic, when the saturations of the phases add
    up to 1, a component that has the same molarity in every phase has
    this molarity as its global molarity. *)
Theorem globalMolarities_uniform_molarity (numPhases numComponents : nat)
    (fs : FluidState R) (compIdx : nat) (m : R) :
  (compIdx < numComponents)%nat ->
  saturationSum fs numPhases = 1 ->
  (forall phaseIdx, (phaseIdx < numPhases)%nat -> molarity fs phaseIdx compIdx = m) ->
  globalMolarities numPhases numComponents fs !! compIdx = Some m.
Proof.
  intros Hcomp Hsum Hsame.
  destruct (globalMolarities_spec numPhases numComponents fs) as [_ Hentry].
  rewrite (Hentry compIdx Hcomp). f_equal.
  unfold saturationWeightedMolarity. unfold saturationSum in Hsum.
  rewrite (weighted_sum_uniform fs compIdx m numPhases _ (#0)%S Hsame), Hsum.
  real_literals. lra.
Qed.
End GlobalMolaritiesReal.

(** ** [Brine::liquidDensity] without salt in binary64 *)

Section BrineDensityBinary64.

(** A finite number times 0 is a zero. *)
Lemma float_finite_times_zero (c : float) :
  PrimFloat.is_finite c = true ->
  exists s, Prim2SF (0 * c)%float = S754_zero s.
Proof.
  unfold PrimFloat.is_finite, PrimFloat.is_nan, PrimFloat.is_infinity.
  rewrite !FloatAxioms.eqb_spec, abs_spec, mul_spec. unfold SFeqb, SF64mul.
  change (Prim2SF 0%float) with (S754_zero false).
  change (Prim2SF PrimFloat.infinity) with (S754_infinity false).
  destruct (Prim2SF c) as [s | s | | s m e]; cbn; intros Hfinite;
    try discriminate; try (destruct s; discriminate); eauto.
Qed.

(** A positive number plus a zero is the number. *)
Lemma float_positive_plus_zero (r z : float) :
  (0 <? r)%float = true -> (exists s, Prim2SF z = S754_zero s) -> (r + z)%float = r.
Proof.
  rewrite ltb_spec. unfold SFltb. change (Prim2SF 0%float) with (S754_zero false).
  intros Hpos [s Hz]. apply Prim2SF_inj. rewrite add_spec, Hz. unfold SF64add.
  destruct (Prim2SF r) as [sr | sr | | sr m e]; cbn in Hpos |- *;
    try discriminate; reflexivity.
Qed.

Lemma liquidDensity_salinityCorrection (water : H2O float) (salinity T P : float) :
  Brine.liquidDensity water salinity T P
  = (H2O_liquidDensity water T P
     + #1000 * salinity * Brine.salinityCorrection salinity T P)%S.
Proof. reflexivity. Qed.

(** X24.  In binary64 and without salt, the density of brine is, bit
    for bit, the density of the water, for every water, temperature and
    pressure at which the density of the water is positive and the
    sum that [1000*salinity] is multiplied with is finite; 293.15 K and
    100000 Pa are such a temperature and pressure. *)
Theorem liquidDensity_salinity_0_binary64 (water : H2O float) :
  (forall T P : float,
     PrimFloat.is_finite (Brine.salinityCorrection (#0)%S T P) = true ->
     (#0 <? H2O_liquidDensity water T P)%S = true ->
     Brine.liquidDensity water (#0)%S T P = H2O_liquidDensity water T P)
  /\ ((#0 <? H2O_liquidDensity water #293.15 #1.0e5)%S = true ->
      Brine.liquidDensity water (#0)%S (#293.15)%S (#1.0e5)%S
      = H2O_liquidDensity water (#293.15)%S (#1.0e5)%S).
Proof.
  assert (Hall : forall T P : float,
            PrimFloat.is_finite (Brine.salinityCorrection (#0)%S T P) = true ->
            (#0 <? H2O_liquidDensity water T P)%S = true ->
            Brine.liquidDensity water (#0)%S T P = H2O_liquidDensity water T P).
  { intros T P Hfinite Hpos. rewrite liquidDensity_salinityCorrection.
    replace (#1000 * #0)%S with 0%float by (vm_compute; reflexivity).
    apply float_positive_plus_zero.
    - exact Hpos.
    - apply float_finite_times_zero, Hfinite. }
  split; [exact Hall |].
  intros Hpos. apply Hall; [vm_compute; reflexivity | exact Hpos].
Qed.
End BrineDensityBinary64.

(** ** [assignMassConservative] in binary64: temperatures that are not numbers *)

Section MPNCBinary64.
Import MPNCPrimaryVariables.

Lemma SFcompare_refl (x : spec_float) : x <> S754_nan -> SFcompare x x = Some Eq.
Proof.
  destruct x as [s | s | | s m e]; cbn [SFcompare]; try congruence; intros _.
  - destruct s; reflexivity.
  - destruct s; rewrite Z.compare_refl, Pos.compare_cont_refl; reflexivity.
Qed.

(** A NaN compares equal to nothing, itself included. *)
Lemma float_eqb_nan (x y : float) :
  PrimFloat.is_nan x = true -> (x =? y)%float = false.
Proof.
  unfold PrimFloat.is_nan. rewrite !FloatAxioms.eqb_spec. unfold SFeqb. intros Hnan.
  destruct (Prim2SF x) as [s | s | | s m e] eqn:Hx;
    try (rewrite SFcompare_refl in Hnan by congruence; discriminate).
  reflexivity.
Qed.

(** X12.  In a debug build and in binary64, [assignMassConservative]
    ends in a failed assertion for every fluid state of two or more
    phases whose temperature of phase 0 is a NaN, also when all phases
    hold this same NaN: the assertion compares with [==]. *)
Theorem assignMassConservative_nan_temperature (Params : Type)
    (numPhases numComponents p0Idx S0Idx fug0Idx : nat)
    (setPriVarTemperatures : list float -> FluidState float -> list float)
    (CompositionalFluidState_assign : FluidState float -> FluidState float)
    (NcpFlash_solve : FluidState float -> Params -> list float -> FluidState float)
    (fs : FluidState float) (params : Params) (isInEquilibrium : bool)
    (s : Machine float Params) :
  (2 <= numPhases)%nat ->
  PrimFloat.is_nan (temperature fs 0) = true ->
  assignMassConservative Params numPhases numComponents p0Idx S0Idx fug0Idx false
    setPriVarTemperatures CompositionalFluidState_assign NcpFlash_solve
    fs params isInEquilibrium s
  = AssertionFailed.
Proof.
  intros Hphases Hnan. unfold assignMassConservative. unfold bind at 1.
  rewrite (for_assert_fails Params
             (fun phaseIdx => (temperature fs 0 ==? temperature fs phaseIdx)%S)
             (numPhases - 1) 1 s 1).
  - reflexivity.
  - lia.
  - apply float_eqb_nan, Hnan.
Qed.
End MPNCBinary64.

(** ** [CartesianIndexMapper]: coordinates and index *)

Section CartesianRoundTrip.
Import CartesianIndexMapper.
Local Open Scope Z_scope.

Variable dimension : nat.
Variable cartesianDimensions_ : list Z.
Variable cartesianIndex_ : list Z.

Local Abbreviation dims := cartesianDimensions_.
Local Abbreviation strideOf := (stride cartesianDimensions_).
Local Abbreviation left gc d := (remaining cartesianDimensions_ gc d).
Local Abbreviation wsum := (weightedSum cartesianDimensions_).

Lemma at_insert_eq (v : list Z) (i : nat) (x : Z) :
  (i < length v)%nat -> at_ (<[i := x]> v) i = x.
Proof. intros Hi. unfold at_. rewrite list_lookup_insert_eq by exact Hi. reflexivity. Qed.

Lemma at_insert_ne (v : list Z) (i j : nat) (x : Z) :
  i <> j -> at_ (<[i := x]> v) j = at_ v j.
Proof. intros Hne. unfold at_. rewrite list_lookup_insert_ne by exact Hne. reflexivity. Qed.

Lemma weightedSum_ext (coords coords' : list Z) (k : nat) :
  (forall d, (d < k)%nat -> at_ coords' d = at_ coords d) ->
  wsum coords' k = wsum coords k.
Proof.
  induction k as [| k IH]; intros Hagree; [reflexivity |].
  cbn [weightedSum]. rewrite IH, Hagree by (intros; try apply Hagree; lia).
  reflexivity.
Qed.

(** The loop of [cartesianIndex(coords)]. *)
Lemma cartesianIndex_loop (coords : list Z) (k : nat) :
  fold_left
    (fun '(cartIndex, factor) i =>
       (cartIndex + at_ coords i * factor, factor * at_ dims i))
    (seq 1 k) (at_ coords 0, at_ dims 0)
  = (wsum coords (S k), strideOf (S k)).
Proof.
  induction k as [| k IH].
  - cbn [seq fold_left weightedSum stride]. f_equal; ring.
  - rewrite seq_S, fold_left_app, IH. reflexivity.
Qed.

Lemma cartesianIndexOfCoords_weightedSum (coords : list Z) :
  (1 <= dimension)%nat ->
  cartesianIndexOfCoords dimension dims coords = wsum coords dimension.
Proof.
  intros Hdim. unfold cartesianIndexOfCoords, cartesianDimensions.
  rewrite cartesianIndex_loop. cbn [fst].
  replace (S (dimension - 1)) with dimension by lia. reflexivity.
Qed.

(** The loop of [cartesianCoordinate]. *)
Lemma cartesianCoordinate_loop (coords : list Z) (gc : Z) (k : nat) :
  (k <= length coords)%nat ->
  exists coords',
    fold_left
      (fun '(coords, gc) d =>
         (<[d := Z.rem gc (at_ dims d)]> coords, Z.quot gc (at_ dims d)))
      (seq 0 k) (coords, gc)
    = (coords', left gc k)
    /\ length coords' = length coords
    /\ forall d, (d < k)%nat -> at_ coords' d = Z.rem (left gc d) (at_ dims d).
Proof.
  induction k as [| k IH]; intros Hk.
  - exists coords. repeat split. intros d Hd. lia.
  - destruct IH as (coords' & Hrun & Hlen & Hdigits); [lia |].
    exists (<[k := Z.rem (left gc k) (at_ dims k)]> coords').
    rewrite seq_S, fold_left_app, Hrun. cbn [fold_left Nat.add remaining].
    split; [reflexivity |]. split; [rewrite length_insert; exact Hlen |].
    intros d Hd. destruct (decide (d = k)) as [-> | Hne].
    + apply at_insert_eq. lia.
    + rewrite at_insert_ne by congruence. apply Hdigits. lia.
Qed.

(** Taking coordinates off and adding them up again with their
    strides gives what one started from. *)
Lemma remaining_weightedSum (coords : list Z) (gc : Z) (k : nat) :
  (forall d, (d < k)%nat -> at_ coords d = Z.rem (left gc d) (at_ dims d)) ->
  gc = wsum coords k + left gc k * strideOf k.
Proof.
  induction k as [| k IH]; intros Hdigits.
  - cbn. lia.
  - cbn [weightedSum remaining stride].
    rewrite Hdigits by lia.
    rewrite (IH ltac:(intros; apply Hdigits; lia)) at 1.
    rewrite (Z.quot_rem' (left gc k) (at_ dims k)) at 1.
    ring.
Qed.

(** What comes back from the round trip through the coordinates: the
    index, off by the difference between dividing by the last
    Cartesian dimension, as the program does, and dividing by the one
    before it, as the coordinates need. *)
Lemma coordinatesOf_round_trip_defect (gc : Z) (coords : list Z) :
  (2 <= dimension)%nat -> length coords = dimension ->
  let g := left gc (dimension - 2) in
  cartesianIndexOfCoords dimension dims (coordinatesOf dimension dims gc coords)
  = gc + (Z.quot g (at_ dims (dimension - 1)) - Z.quot g (at_ dims (dimension - 2)))
         * strideOf (dimension - 1).
Proof.
  intros Hdim Hlen g.
  rewrite cartesianIndexOfCoords_weightedSum by lia.
  unfold coordinatesOf, cartesianDimensions.
  destruct (2 <=? dimension)%nat eqn:Hge; [| apply Nat.leb_gt in Hge; lia].
  destruct (cartesianCoordinate_loop coords gc (dimension - 2))
    as (coords' & Hrun & Hlen' & Hdigits); [lia |].
  rewrite Hrun. fold g.
  set (final := <[(dimension - 1)%nat := _]> (<[(dimension - 2)%nat := _]> coords')).
  assert (Hlast : at_ final (dimension - 1) = Z.quot g (at_ dims (dimension - 1))).
  { subst final. apply at_insert_eq. rewrite length_insert. lia. }
  assert (Hfinal : forall d, (d < dimension - 1)%nat ->
            at_ final d = Z.rem (left gc d) (at_ dims d)).
  { intros d Hd. subst final. rewrite at_insert_ne by lia.
    destruct (decide (d = (dimension - 2)%nat)) as [-> | Hne].
    - apply at_insert_eq. lia.
    - rewrite at_insert_ne by congruence. apply Hdigits. lia. }
  replace dimension with (S (dimension - 1)) at 1 by lia.
  cbn [weightedSum]. rewrite Hlast.
  assert (Hleft : left gc (dimension - 1) = Z.quot g (at_ dims (dimension - 2))).
  { subst g. replace (dimension - 1)%nat with (S (dimension - 2)) by lia.
    reflexivity. }
  pose proof (remaining_weightedSum final gc (dimension - 1) Hfinal) as Hgc.
  rewrite Hleft in Hgc. lia.
Qed.

(** The round trip works when the last two Cartesian dimensions are
    the same, for every index. *)
Lemma cartesianCoordinate_round_trip_equal_dims (i : nat) (coords : list Z) :
  (2 <= dimension)%nat -> length coords = dimension ->
  at_ dims (dimension - 1) = at_ dims (dimension - 2) ->
  cartesianIndexOfCoords dimension dims
    <$> cartesianCoordinate dimension dims cartesianIndex_ i coords
  = cartesianIndex cartesianIndex_ i.
Proof.
  intros Hdim Hlen Hsame. unfold cartesianCoordinate.
  destruct (cartesianIndex cartesianIndex_ i) as [gc |]; [| reflexivity].
  cbn [fmap option_fmap option_map]. f_equal.
  rewrite coordinatesOf_round_trip_defect by assumption.
  cbn zeta. rewrite Hsame. ring.
Qed.

(** In one dimension the coordinate is the index. *)
Lemma cartesianCoordinate_round_trip_1d (i : nat) (coords : list Z) :
  dimension = 1%nat -> length coords = dimension ->
  cartesianIndexOfCoords dimension dims
    <$> cartesianCoordinate dimension dims cartesianIndex_ i coords
  = cartesianIndex cartesianIndex_ i.
Proof.
  intros -> Hlen. unfold cartesianCoordinate.
  destruct (cartesianIndex cartesianIndex_ i) as [gc |]; [| reflexivity].
  cbn [fmap option_fmap option_map]. f_equal.
  unfold cartesianIndexOfCoords, coordinatesOf.
  cbn [Nat.leb Nat.sub seq fold_left fst]. apply at_insert_eq. lia.
Qed.
End CartesianRoundTrip.

(** C10 fails on the program.  In a grid of 2 x 3 cells the cell with
    Cartesian index 2 (which is below the Cartesian size 6) gets the
    coordinates (0, 0), and these are the coordinates of index 0: the
    last coordinate is [gc / cartesianDimensions()[dimension-1]], 2/3,
    where [gc / cartesianDimensions()[dimension-2]], 2/2, is needed.
    The same happens in three dimensions: in 2 x 3 x 4 cells index 6
    gets the coordinates (0, 0, 0). *)
Theorem cartesianCoordinate_round_trip_fails :
  let dims := [2; 3]%Z in
  let index := [2]%Z in
  CartesianIndexMapper.cartesianIndex index 0 = Some 2%Z
  /\ (0 <= 2 < CartesianIndexMapper.cartesianSize 2 dims)%Z
  /\ CartesianIndexMapper.cartesianCoordinate 2 dims index 0 [0; 0]%Z = Some [0; 0]%Z
  /\ CartesianIndexMapper.cartesianIndexOfCoords 2 dims [0; 0]%Z = 0%Z
  /\ CartesianIndexMapper.cartesianIndexOfCoords 2 dims
       <$> CartesianIndexMapper.cartesianCoordinate 2 dims index 0 [0; 0]%Z
     <> CartesianIndexMapper.cartesianIndex index 0
  /\ CartesianIndexMapper.cartesianCoordinate 3 [2; 3; 4]%Z [6]%Z 0 [0; 0; 0]%Z
     = Some [0; 0; 0]%Z
  /\ CartesianIndexMapper.cartesianIndexOfCoords 3 [2; 3; 4]%Z [0; 0; 0]%Z = 0%Z.
Proof. cbv zeta. repeat split; vm_compute; congruence. Qed.

(** ** [CartesianIndexMapper]: coordinates inside the logical grid *)

Section CartesianCoordinates.
Import CartesianIndexMapper.
Local Open Scope Z_scope.

Variable dimension : nat.
Variable cartesianDimensions_ : list Z.
Variable cartesianIndex_ : list Z.

Local Abbreviation dims := cartesianDimensions_.
Local Abbreviation strideOf := (stride cartesianDimensions_).
Local Abbreviation left gc d := (remaining cartesianDimensions_ gc d).
Local Abbreviation wsum := (weightedSum cartesianDimensions_).
Local Abbreviation upper := (upperPart cartesianDimensions_).
Local Abbreviation encode := (cartesianIndexOfCoords dimension cartesianDimensions_).
Local Abbreviation decode gc out := (coordinatesOf dimension cartesianDimensions_ gc out).

Lemma at_lookup (v : list Z) (d : nat) : (d < length v)%nat -> v !! d = Some (at_ v d).
Proof.
  intros Hd. unfold at_. destruct (lookup_lt_is_Some_2 v d Hd) as [x ->]. reflexivity.
Qed.

(** The loop of [computeCartesianSize]. *)
Lemma computeCartesianSize_loop (k : nat) :
  fold_left (fun size d => size * at_ dims d) (seq 1 k) (at_ dims 0) = strideOf (S k).
Proof.
  induction k as [| k IH].
  - cbn [seq fold_left stride]. ring.
  - rewrite seq_S, fold_left_app, IH. reflexivity.
Qed.

(** [cartesianSize()] is the product of the Cartesian dimensions. *)
Lemma cartesianSize_stride :
  (1 <= dimension)%nat -> cartesianSize dimension dims = strideOf dimension.
Proof.
  intros Hdim. unfold cartesianSize, computeCartesianSize, cartesianDimensions.
  rewrite computeCartesianSize_loop.
  replace (S (dimension - 1)) with dimension by lia. reflexivity.
Qed.

Lemma stride_pos (k : nat) :
  (forall d, (d < k)%nat -> 0 < at_ dims d) -> 0 < strideOf k.
Proof.
  induction k as [| k IH]; intros Hpos; cbn [stride]; [lia |].
  apply Z.mul_pos_pos; [apply IH; intros; apply Hpos; lia | apply Hpos; lia].
Qed.

Lemma weightedSum_bounds (coords : list Z) (k : nat) :
  (forall d, (d < k)%nat -> 0 <= at_ coords d < at_ dims d) ->
  0 <= wsum coords k < strideOf k.
Proof.
  induction k as [| k IH]; intros Hin; cbn [weightedSum stride]; [lia |].
  specialize (IH ltac:(intros; apply Hin; lia)).
  specialize (Hin k ltac:(lia)). nia.
Qed.

Lemma weightedSum_upperPart (coords : list Z) (k m : nat) :
  wsum coords (k + m) = wsum coords k + strideOf k * upper coords k m.
Proof.
  revert k. induction m as [| m IH]; intros k.
  - rewrite Nat.add_0_r. cbn [upperPart]. ring.
  - replace (k + S m)%nat with (S k + m)%nat by lia. rewrite IH.
    cbn [weightedSum stride upperPart]. ring.
Qed.

Lemma upperPart_nonneg (coords : list Z) (k m : nat) :
  (forall d, (k <= d < k + m)%nat -> 0 <= at_ coords d < at_ dims d) ->
  0 <= upper coords k m.
Proof.
  revert k. induction m as [| m IH]; intros k Hin; cbn [upperPart]; [lia |].
  pose proof (Hin k ltac:(lia)) as Hk.
  specialize (IH (S k) ltac:(intros; apply Hin; lia)). nia.
Qed.

(** What is left of the index of [coords] when the first [k]
    coordinates are taken off: the other coordinates. *)
Lemma remaining_encoded (coords : list Z) (n k : nat) :
  (forall d, (d < n)%nat -> 0 <= at_ coords d < at_ dims d) -> (k <= n)%nat ->
  left (wsum coords n) k = upper coords k (n - k).
Proof.
  intros Hin. induction k as [| k IH]; intros Hk.
  - cbn [remaining]. rewrite Nat.sub_0_r.
    pose proof (weightedSum_upperPart coords 0 n) as E. cbn [Nat.add] in E.
    rewrite E. cbn [weightedSum stride]. ring.
  - cbn [remaining]. rewrite IH by lia.
    replace (n - k)%nat with (S (n - S k)) by lia. cbn [upperPart].
    symmetry. apply (Z.quot_unique _ _ _ (at_ coords k)).
    + pose proof (upperPart_nonneg coords (S k) (n - S k)
                    ltac:(intros; apply Hin; lia)).
      pose proof (Hin k ltac:(lia)). nia.
    + apply Hin. lia.
    + ring.
Qed.

Lemma digits_encoded (coords : list Z) (n d : nat) :
  (forall d, (d < n)%nat -> 0 <= at_ coords d < at_ dims d) -> (d < n)%nat ->
  Z.rem (left (wsum coords n) d) (at_ dims d) = at_ coords d.
Proof.
  intros Hin Hd. rewrite remaining_encoded by (assumption || lia).
  replace (n - d)%nat with (S (n - S d)) by lia. cbn [upperPart].
  symmetry. apply (Z.rem_unique _ _ (upper coords (S d) (n - S d))).
  - pose proof (upperPart_nonneg coords (S d) (n - S d)
                  ltac:(intros; apply Hin; lia)).
    pose proof (Hin d ltac:(lia)). nia.
  - apply Hin. lia.
  - ring.
Qed.

(** What [cartesianCoordinate] leaves in [coords], in two and more
    dimensions. *)
Lemma coordinatesOf_digits (gc : Z) (out : list Z) :
  (2 <= dimension)%nat -> length out = dimension ->
  length (decode gc out) = dimension
  /\ (forall d, (d < dimension - 1)%nat ->
        at_ (decode gc out) d = Z.rem (left gc d) (at_ dims d))
  /\ at_ (decode gc out) (dimension - 1)
     = Z.quot (left gc (dimension - 2)) (at_ dims (dimension - 1)).
Proof.
  intros Hdim Hlen. unfold coordinatesOf, cartesianDimensions.
  destruct (2 <=? dimension)%nat eqn:Hge; [| apply Nat.leb_gt in Hge; lia].
  destruct (cartesianCoordinate_loop dims out gc (dimension - 2))
    as (coords' & Hrun & Hlen' & Hdigits); [lia |].
  rewrite Hrun.
  split; [rewrite !length_insert; lia |]. split.
  - intros d Hd. rewrite at_insert_ne by lia.
    destruct (decide (d = (dimension - 2)%nat)) as [-> | Hne].
    + apply at_insert_eq. lia.
    + rewrite at_insert_ne by congruence. apply Hdigits. lia.
  - apply at_insert_eq. rewrite length_insert. lia.
Qed.

Lemma remaining_bounds (gc : Z) (k : nat) :
  0 <= gc -> (forall d, (d < k)%nat -> 0 < at_ dims d) ->
  0 <= left gc k /\ left gc k * strideOf k <= gc < (left gc k + 1) * strideOf k.
Proof.
  intros Hgc. induction k as [| k IH]; intros Hpos; cbn [remaining stride]; [lia |].
  destruct (IH ltac:(intros; apply Hpos; lia)) as (Hleft & Hlow & Hhigh).
  pose proof (Hpos k ltac:(lia)) as Hd.
  pose proof (stride_pos k ltac:(intros; apply Hpos; lia)) as Hs.
  pose proof (Z.quot_rem' (left gc k) (at_ dims k)) as Hqr.
  pose proof (Z.rem_bound_pos (left gc k) (at_ dims k) Hleft Hd) as Hr.
  pose proof (Z.quot_pos (left gc k) (at_ dims k) Hleft Hd) as Hq.
  set (q := Z.quot (left gc k) (at_ dims k)) in *.
  set (r := Z.rem (left gc k) (at_ dims k)) in *.
  set (L := left gc k) in *. set (s := strideOf k) in *. set (n := at_ dims k) in *.
  split; [exact Hq |]. split.
  - apply Z.le_trans with (L * s); [| exact Hlow]. nia.
  - apply Z.lt_le_trans with ((L + 1) * s); [exact Hhigh |]. nia.
Qed.



(** *** The program's [int] arithmetic in grids of at most [INT_MAX] cells *)

Local Abbreviation fits z := (INT_MIN <= z <= INT_MAX).
Local Abbreviation encode_int := (cartesianIndexOfCoords_int dimension cartesianDimensions_).
Local Abbreviation between gc z :=
  ((0 <= gc -> 0 <= z <= gc) /\ (gc <= 0 -> gc <= z <= 0)).

Lemma wrap_id (z : Z) : fits z -> wrap z = z.
Proof.
  unfold wrap, INT_MIN, INT_MAX. intros Hz. rewrite Z.mod_small by lia. lia.
Qed.

Lemma stride_le (j k : nat) :
  (forall d, (d < k)%nat -> 0 < at_ dims d) -> (j <= k)%nat ->
  0 < strideOf j <= strideOf k.
Proof.
  intros Hpos Hjk. induction k as [| k IH].
  - replace j with 0%nat by lia. cbn [stride]. lia.
  - destruct (decide (j = S k)) as [-> | Hne].
    + split; [apply stride_pos; exact Hpos | lia].
    + destruct IH as [Hj Hle]; [intros; apply Hpos; lia | lia |].
      cbn [stride]. pose proof (Hpos k ltac:(lia)). split; [exact Hj | nia].
Qed.

(** The loop of [computeCartesianSize] on [int], while the products
    stay in the range. *)
Lemma computeCartesianSize_int_loop (k : nat) :
  (forall i, (1 <= i <= k)%nat -> fits (strideOf (S i))) ->
  fold_left (fun size d => wrap (size * at_ dims d)) (seq 1 k) (at_ dims 0)
  = strideOf (S k).
Proof.
  induction k as [| k IH]; intros Hfit.
  - cbn [seq fold_left stride]. ring.
  - rewrite seq_S, fold_left_app, IH by (intros; apply Hfit; lia).
    cbn [fold_left Nat.add]. apply wrap_id. apply (Hfit (S k)). lia.
Qed.

(** The loop of [cartesianIndex(coords)] on [int], while the products
    and sums stay in the range. *)
Lemma cartesianIndex_int_loop (coords : list Z) (k : nat) :
  (forall i, (1 <= i <= k)%nat ->
     fits (at_ coords i * strideOf i)
     /\ fits (wsum coords (S i))
     /\ fits (strideOf (S i))) ->
  fold_left
    (fun '(cartIndex, factor) i =>
       (wrap (cartIndex + wrap (at_ coords i * factor)), wrap (factor * at_ dims i)))
    (seq 1 k) (at_ coords 0, at_ dims 0)
  = (wsum coords (S k), strideOf (S k)).
Proof.
  induction k as [| k IH]; intros Hfit.
  - cbn [seq fold_left weightedSum stride]. f_equal; ring.
  - rewrite seq_S, fold_left_app, IH by (intros; apply Hfit; lia).
    cbn [fold_left Nat.add].
    destruct (Hfit (S k) ltac:(lia)) as (Hterm & Hsum & Hfactor).
    rewrite (wrap_id (at_ coords (S k) * strideOf (S k))) by exact Hterm.
    f_equal; apply wrap_id; [exact Hsum | exact Hfactor].
Qed.

Lemma cartesianIndexOfCoords_int_weightedSum (coords : list Z) :
  (1 <= dimension)%nat ->
  (forall i, (1 <= i <= dimension - 1)%nat ->
     fits (at_ coords i * strideOf i)
     /\ fits (wsum coords (S i))
     /\ fits (strideOf (S i))) ->
  encode_int coords = wsum coords dimension.
Proof.
  intros Hdim Hfit. unfold cartesianIndexOfCoords_int, cartesianDimensions.
  rewrite cartesianIndex_int_loop by exact Hfit. cbn [fst].
  replace (S (dimension - 1)) with dimension by lia. reflexivity.
Qed.

(** In a grid of at most [INT_MAX] cells the products of the
    Cartesian dimensions stay in the range of [int]. *)
Lemma stride_fits (j : nat) :
  (forall d, (d < dimension)%nat -> 0 < at_ dims d) ->
  strideOf dimension <= INT_MAX -> (j <= dimension)%nat ->
  fits (strideOf j).
Proof.
  intros Hpos Hcells Hj. pose proof (stride_le j dimension Hpos Hj).
  unfold INT_MIN. lia.
Qed.

Lemma computeCartesianSize_int_stride :
  (1 <= dimension)%nat ->
  (forall d, (d < dimension)%nat -> 0 < at_ dims d) ->
  strideOf dimension <= INT_MAX ->
  computeCartesianSize_int dimension dims = strideOf dimension.
Proof.
  intros Hdim Hpos Hcells. unfold computeCartesianSize_int, cartesianDimensions.
  rewrite computeCartesianSize_int_loop.
  - replace (S (dimension - 1)) with dimension by lia. reflexivity.
  - intros i Hi. apply stride_fits; (assumption || lia).
Qed.

(** For coordinates inside the grid the sums and products of
    [cartesianIndex(coords)] stay in the range of [int]. *)
Lemma cartesianIndexOfCoords_int_inside (coords : list Z) :
  (1 <= dimension)%nat ->
  (forall d, (d < dimension)%nat -> 0 <= at_ coords d < at_ dims d) ->
  strideOf dimension <= INT_MAX ->
  encode_int coords = encode coords.
Proof.
  intros Hdim Hin Hcells.
  assert (Hpos : forall d, (d < dimension)%nat -> 0 < at_ dims d)
    by (intros d Hd; specialize (Hin d Hd); lia).
  rewrite cartesianIndexOfCoords_weightedSum by exact Hdim.
  apply cartesianIndexOfCoords_int_weightedSum; [exact Hdim |].
  intros i Hi.
  pose proof (weightedSum_bounds coords i ltac:(intros; apply Hin; lia)) as Hlow.
  pose proof (weightedSum_bounds coords (S i) ltac:(intros; apply Hin; lia)) as Hhigh.
  pose proof (stride_le (S i) dimension Hpos ltac:(lia)) as Hstride.
  change (wsum coords (S i)) with (wsum coords i + at_ coords i * strideOf i) in *.
  assert (Hterm : 0 <= at_ coords i * strideOf i).
  { apply Z.mul_nonneg_nonneg; [apply Hin; lia |].
    pose proof (stride_le i dimension Hpos ltac:(lia)). lia. }
  unfold INT_MIN in *. repeat split; lia.
Qed.

(** X1.  In a grid of at most [INT_MAX] cells, what the program
    computes on [int] is what the functions compute in [Z]:
    [cartesianSize()] is the product of the Cartesian dimensions, and
    the Cartesian index of coordinates inside the logical grid (each
    coordinate at least 0 and below its Cartesian dimension) is at
    least 0 and below [cartesianSize()]. *)
Theorem cartesianIndex_of_coordinates_in_range (coords : list Z) :
  (1 <= dimension)%nat ->
  (forall d, (d < dimension)%nat -> 0 <= at_ coords d < at_ dims d) ->
  strideOf dimension <= INT_MAX ->
  computeCartesianSize_int dimension dims = strideOf dimension
  /\ cartesianSize dimension dims = computeCartesianSize_int dimension dims
  /\ encode_int coords = encode coords
  /\ 0 <= encode_int coords < computeCartesianSize_int dimension dims.
Proof.
  intros Hdim Hin Hcells.
  assert (Hpos : forall d, (d < dimension)%nat -> 0 < at_ dims d)
    by (intros d Hd; specialize (Hin d Hd); lia).
  rewrite computeCartesianSize_int_stride by assumption.
  rewrite cartesianIndexOfCoords_int_inside by assumption.
  rewrite cartesianSize_stride, cartesianIndexOfCoords_weightedSum by exact Hdim.
  repeat split; apply weightedSum_bounds, Hin.
Qed.

(** X2.  In a grid of at most [INT_MAX] cells, different coordinates
    inside the logical grid have different Cartesian indices, as the
    program computes them on [int]. *)
Theorem cartesianIndex_of_coordinates_injective (coordsA coordsB : list Z) :
  length coordsA = dimension -> length coordsB = dimension ->
  (forall d, (d < dimension)%nat -> 0 <= at_ coordsA d < at_ dims d) ->
  (forall d, (d < dimension)%nat -> 0 <= at_ coordsB d < at_ dims d) ->
  strideOf dimension <= INT_MAX ->
  encode_int coordsA = encode_int coordsB ->
  coordsA = coordsB.
Proof.
  intros HlenA HlenB HinA HinB Hcells Hsame.
  destruct (decide (dimension = 0%nat)) as [Hzero | Hdim].
  - rewrite Hzero in HlenA, HlenB.
    destruct coordsA, coordsB; try discriminate. reflexivity.
  - rewrite !cartesianIndexOfCoords_int_inside in Hsame by (assumption || lia).
    rewrite !cartesianIndexOfCoords_weightedSum in Hsame by lia.
    apply list_eq. intros d.
    destruct (decide (d < dimension)%nat) as [Hd | Hd].
    + rewrite !at_lookup by lia. f_equal.
      rewrite <- (digits_encoded coordsA dimension d HinA Hd).
      rewrite <- (digits_encoded coordsB dimension d HinB Hd).
      rewrite Hsame. reflexivity.
    + rewrite !(proj2 (lookup_ge_None _ _)) by lia. reflexivity.
Qed.

(** X3.  In a grid of at most [INT_MAX] cells, when the index stored
    for a cell is the Cartesian index that the program computes for
    coordinates inside the logical grid, [cartesianCoordinate] gives
    these coordinates back but for the last one, which is
    [(coords[dimension-2] + cartesianDimensions()[dimension-2] *
    coords[dimension-1]) / cartesianDimensions()[dimension-1]]; all
    of them come back in one dimension and when the last two Cartesian
    dimensions are the same. *)
Theorem cartesianCoordinate_of_cartesianIndex (i : nat) (coords out : list Z) :
  (1 <= dimension)%nat -> length coords = dimension -> length out = dimension ->
  (forall d, (d < dimension)%nat -> 0 <= at_ coords d < at_ dims d) ->
  strideOf dimension <= INT_MAX ->
  cartesianIndex cartesianIndex_ i = Some (encode_int coords) ->
  exists coords',
    cartesianCoordinate dimension dims cartesianIndex_ i out = Some coords'
    /\ length coords' = dimension
    /\ (forall d, (d < dimension - 1)%nat -> coords' !! d = coords !! d)
    /\ ((2 <= dimension)%nat ->
        coords' !! (dimension - 1)%nat
        = Some (Z.quot (at_ coords (dimension - 2)
                        + at_ dims (dimension - 2) * at_ coords (dimension - 1))
                       (at_ dims (dimension - 1))))
    /\ (dimension = 1%nat \/ at_ dims (dimension - 1) = at_ dims (dimension - 2) ->
        coords' = coords).
Proof.
  intros Hdim Hlen Hout Hin Hcells Hstored.
  rewrite cartesianIndexOfCoords_int_inside in Hstored by assumption.
  unfold cartesianCoordinate. rewrite Hstored.
  eexists. split; [reflexivity |].
  rewrite cartesianIndexOfCoords_weightedSum by exact Hdim.
  destruct (decide (dimension = 1%nat)) as [Hone | Hmore].
  - assert (Hrun : decode (wsum coords dimension) out = <[0%nat := at_ coords 0]> out).
    { rewrite Hone. unfold coordinatesOf.
      cbn [Nat.leb weightedSum stride]. f_equal. ring. }
    rewrite Hrun.
    split; [rewrite length_insert; exact Hout |].
    split; [intros d Hd; lia |]. split; [intros Htwo; lia |].
    intros _. apply list_eq. intros [| d].
    + rewrite list_lookup_insert_eq by lia. symmetry. apply at_lookup. lia.
    + rewrite list_lookup_insert_ne by lia.
      rewrite !(proj2 (lookup_ge_None _ _)) by lia. reflexivity.
  - destruct (coordinatesOf_digits (wsum coords dimension) out ltac:(lia) Hout)
      as (Hlen' & Hdigits & Hlast).
    set (coords' := decode (wsum coords dimension) out) in *.
    assert (Hleading : forall d, (d < dimension - 1)%nat -> coords' !! d = coords !! d).
    { intros d Hd. rewrite !at_lookup by lia. f_equal.
      rewrite Hdigits by exact Hd. apply digits_encoded; [exact Hin | lia]. }
    assert (Hlast' : at_ coords' (dimension - 1)
                     = Z.quot (at_ coords (dimension - 2)
                               + at_ dims (dimension - 2) * at_ coords (dimension - 1))
                              (at_ dims (dimension - 1))).
    { rewrite Hlast, remaining_encoded by (exact Hin || lia).
      replace (dimension - (dimension - 2))%nat with 2%nat by lia.
      cbn [upperPart].
      replace (S (dimension - 2)) with (dimension - 1)%nat by lia.
      f_equal. ring. }
    split; [exact Hlen' |]. split; [exact Hleading |].
    split; [intros _; rewrite at_lookup by lia; f_equal; exact Hlast' |].
    intros [Hone | Hsame]; [contradiction |].
    apply list_eq. intros d.
    destruct (decide (d < dimension - 1)%nat) as [Hd | Hd]; [apply Hleading, Hd |].
    destruct (decide (d = (dimension - 1)%nat)) as [-> | Hne].
    + rewrite !at_lookup by lia. f_equal. rewrite Hlast', Hsame.
      symmetry. apply (Z.quot_unique _ _ _ (at_ coords (dimension - 2))).
      * pose proof (Hin (dimension - 2)%nat ltac:(lia)).
        pose proof (Hin (dimension - 1)%nat ltac:(lia)). nia.
      * apply Hin. lia.
      * ring.
    + rewrite !(proj2 (lookup_ge_None _ _)) by lia. reflexivity.
Qed.

(** Quotient and remainder of a number and a positive divisor lie
    between 0 and the number. *)
Lemma quot_rem_between (a b : Z) :
  0 < b -> between a (Z.quot a b) /\ between a (Z.rem a b).
Proof.
  intros Hb.
  pose proof (Z.quot_rem' a b) as Hqr.
  destruct (Z_le_gt_dec 0 a) as [Ha | Ha].
  - pose proof (Z.quot_pos a b Ha Hb). pose proof (Z.rem_bound_pos a b Ha Hb).
    repeat split; nia.
  - pose proof (Z.quot_opp_l a b ltac:(lia)) as Hq.
    pose proof (Z.rem_opp_l a b ltac:(lia)) as Hr.
    pose proof (Z.quot_pos (- a) b ltac:(lia) Hb).
    pose proof (Z.rem_bound_pos (- a) b ltac:(lia) Hb).
    repeat split; nia.
Qed.

(** The digits that [cartesianCoordinate] takes off an index, added
    up with their strides, lie between 0 and the index, and so does
    what is left of the index. *)
Lemma digits_between (coords : list Z) (gc : Z) (k : nat) :
  (forall d, (d < k)%nat -> 0 < at_ dims d) ->
  (forall d, (d < k)%nat -> at_ coords d = Z.rem (left gc d) (at_ dims d)) ->
  between gc (left gc k) /\ between gc (wsum coords k)
  /\ between gc (left gc k * strideOf k).
Proof.
  intros Hpos Hdigits. induction k as [| k IH].
  - cbn [remaining weightedSum stride]. repeat split; lia.
  - destruct IH as (Hleft & Hsum & Hrest);
      [intros; apply Hpos; lia | intros; apply Hdigits; lia |].
    pose proof (remaining_weightedSum dims coords gc k
                  ltac:(intros; apply Hdigits; lia)) as Hk.
    pose proof (remaining_weightedSum dims coords gc (S k) Hdigits) as HSk.
    pose proof (stride_pos (S k) Hpos) as Hstride.
    destruct (quot_rem_between (left gc k) (at_ dims k) (Hpos k ltac:(lia)))
      as [Hquot Hrem].
    pose proof (stride_pos k ltac:(intros; apply Hpos; lia)) as Hstridek.
    cbn [remaining weightedSum stride] in *.
    rewrite (Hdigits k) in * by lia.
    set (q := Z.quot (left gc k) (at_ dims k)) in *.
    set (r := Z.rem (left gc k) (at_ dims k)) in *.
    set (L := left gc k) in *. set (s := strideOf k) in *.
    set (n := at_ dims k) in *. set (w := wsum coords k) in *.
    destruct Hleft as [HleftP HleftN], Hsum as [HsumP HsumN], Hrest as [HrestP HrestN].
    destruct Hquot as [HquotP HquotN], Hrem as [HremP HremN].
    destruct (Z_le_gt_dec 0 gc) as [Hgc | Hgc].
    + specialize (HleftP Hgc). specialize (HsumP Hgc). specialize (HrestP Hgc).
      specialize (HquotP ltac:(lia)). specialize (HremP ltac:(lia)).
      assert (0 <= r * s) by (apply Z.mul_nonneg_nonneg; lia).
      assert (0 <= q * (s * n)) by (apply Z.mul_nonneg_nonneg; lia).
      repeat split; intros; lia.
    + specialize (HleftN ltac:(lia)). specialize (HsumN ltac:(lia)).
      specialize (HrestN ltac:(lia)).
      specialize (HquotN ltac:(lia)). specialize (HremN ltac:(lia)).
      assert (r * s <= 0) by (apply Z.mul_nonpos_nonneg; lia).
      assert (q * (s * n) <= 0) by (apply Z.mul_nonpos_nonneg; lia).
      repeat split; intros; lia.
Qed.

Lemma cartesianIndexOfCoords_int_decoded (gc : Z) (out : list Z) :
  (2 <= dimension)%nat -> length out = dimension ->
  (forall d, (d < dimension)%nat -> 0 < at_ dims d) ->
  strideOf dimension <= INT_MAX -> fits gc ->
  at_ dims (dimension - 1) = at_ dims (dimension - 2) ->
  encode_int (decode gc out) = encode (decode gc out).
Proof.
  intros Hdim Hout Hpos Hcells Hgc Hsame.
  destruct (coordinatesOf_digits gc out Hdim Hout) as (Hlen & Hdigits & Hlast).
  set (coords := decode gc out) in *.
  assert (Hlast' : at_ coords (dimension - 1) = left gc (dimension - 1)).
  { assert (E : left gc (dimension - 1)
                = Z.quot (left gc (dimension - 2)) (at_ dims (dimension - 2)))
      by (replace (dimension - 1)%nat with (S (dimension - 2)) by lia; reflexivity).
    rewrite Hlast, Hsame, E. reflexivity. }
  rewrite cartesianIndexOfCoords_weightedSum by lia.
  apply cartesianIndexOfCoords_int_weightedSum; [lia |].
  intros i Hi.
  pose proof (stride_fits (S i) Hpos Hcells ltac:(lia)) as Hfactor.
  assert (Hsum : forall k, (k <= dimension)%nat -> fits (wsum coords k)).
  { intros k Hk. destruct (decide (k = dimension)) as [-> | Hne].
    - pose proof (remaining_weightedSum dims coords gc (dimension - 1) Hdigits) as E.
      assert (Ew : wsum coords (S (dimension - 1)) = gc)
        by (cbn [weightedSum]; rewrite Hlast'; lia).
      replace (S (dimension - 1)) with dimension in Ew by lia.
      rewrite Ew. exact Hgc.
    - destruct (digits_between coords gc k
                  ltac:(intros; apply Hpos; lia)
                  ltac:(intros; apply Hdigits; lia)) as (_ & Hw & _).
      unfold INT_MIN, INT_MAX in *. lia. }
  split; [| split; [apply Hsum; lia | exact Hfactor]].
  destruct (decide (i = (dimension - 1)%nat)) as [-> | Hne].
  - rewrite Hlast'.
    destruct (digits_between coords gc (dimension - 1)
                ltac:(intros; apply Hpos; lia) Hdigits) as (_ & _ & Hrest).
    unfold INT_MIN, INT_MAX in *. lia.
  - destruct (digits_between coords gc i
                ltac:(intros; apply Hpos; lia)
                ltac:(intros; apply Hdigits; lia)) as (Hleft & Hw & _).
    destruct (digits_between coords gc (S i)
                ltac:(intros; apply Hpos; lia)
                ltac:(intros; apply Hdigits; lia)) as (_ & Hw' & _).
    destruct (quot_rem_between (left gc i) (at_ dims i) (Hpos i ltac:(lia)))
      as [_ Hrem].
    rewrite <- (Hdigits i) in Hrem by lia.
    pose proof (stride_pos i ltac:(intros; apply Hpos; lia)) as Hstride.
    cbn [weightedSum] in Hw'.
    destruct Hleft as [HleftP HleftN], Hw as [HwP HwN], Hw' as [HwP' HwN'].
    destruct Hrem as [HremP HremN].
    unfold INT_MIN, INT_MAX in *.
    destruct (Z_le_gt_dec 0 gc) as [Hsign | Hsign].
    + specialize (HleftP Hsign). specialize (HwP Hsign). specialize (HwP' Hsign).
      specialize (HremP ltac:(lia)).
      assert (0 <= at_ coords i * strideOf i) by (apply Z.mul_nonneg_nonneg; lia).
      lia.
    + specialize (HleftN ltac:(lia)). specialize (HwN ltac:(lia)).
      specialize (HwN' ltac:(lia)). specialize (HremN ltac:(lia)).
      assert (at_ coords i * strideOf i <= 0) by (apply Z.mul_nonpos_nonneg; lia).
      lia.
Qed.

(** X5.  In a grid of at most [INT_MAX] cells whose Cartesian
    dimensions are positive, and for a vector of [int]: from the
    coordinates [cartesianCoordinate] gives for a cell,
    [cartesianIndex(coords)] computes the index stored for the cell, in
    one dimension and whenever the last two Cartesian dimensions are
    the same; no sum or product on the way leaves the range of
    [int]. *)
Theorem cartesianCoordinate_then_cartesianIndex (i : nat) (coords : list Z) :
  length coords = dimension ->
  (forall d, (d < dimension)%nat -> 0 < at_ dims d) ->
  strideOf dimension <= INT_MAX ->
  (forall gc, cartesianIndex cartesianIndex_ i = Some gc -> fits gc) ->
  dimension = 1%nat
  \/ ((2 <= dimension)%nat /\ at_ dims (dimension - 1) = at_ dims (dimension - 2)) ->
  encode_int <$> cartesianCoordinate dimension dims cartesianIndex_ i coords
  = cartesianIndex cartesianIndex_ i
  /\ encode <$> cartesianCoordinate dimension dims cartesianIndex_ i coords
     = cartesianIndex cartesianIndex_ i.
Proof.
  intros Hlen Hpos Hcells Hints Hcase.
  assert (Hexact : encode <$> cartesianCoordinate dimension dims cartesianIndex_ i coords
                   = cartesianIndex cartesianIndex_ i).
  { destruct Hcase as [Hone | [Hdim Hsame]].
    - apply cartesianCoordinate_round_trip_1d; assumption.
    - apply cartesianCoordinate_round_trip_equal_dims; assumption. }
  split; [| exact Hexact].
  rewrite <- Hexact. unfold cartesianCoordinate.
  destruct (cartesianIndex cartesianIndex_ i) as [gc |] eqn:Hread; [| reflexivity].
  cbn [fmap option_fmap option_map]. f_equal.
  destruct Hcase as [Hone | [Hdim Hsame]].
  - rewrite Hone. reflexivity.
  - apply cartesianIndexOfCoords_int_decoded; try assumption.
    apply Hints. reflexivity.
Qed.
End CartesianCoordinates.

(** ** [GlobalIndexDataHandle]: the Cartesian indices through a load balance *)

Section DataHandleProperties.
Import CartesianIndexMapper.GlobalIndexDataHandle.
Local Open Scope Z_scope.
Context {Element : Type} `{Countable Element}.

Local Abbreviation container := (gmap Element Z).

Lemma finalize_loop (gridView : list Element) (globalIndex_ : container)
    (newIndex : list Z) :
  fold_left (fun newIndex it => newIndex ++ [index globalIndex_ it]) gridView newIndex
  = newIndex ++ map (index globalIndex_) gridView.
Proof.
  revert newIndex. induction gridView as [| it gridView IH]; intros newIndex.
  - cbn. rewrite app_nil_r. reflexivity.
  - cbn [fold_left map]. rewrite IH, <- app_assoc. reflexivity.
Qed.

(** [finalize] reads the container once for each element of the grid
    view, in their order. *)
Lemma finalize_map (gridView : list Element) (globalIndex_ : container) :
  finalize gridView globalIndex_ = map (index globalIndex_) gridView.
Proof. unfold finalize. apply finalize_loop. Qed.

Lemma finalize_lookup (gridView : list Element) (globalIndex_ : container)
    (j : nat) (element : Element) :
  gridView !! j = Some element ->
  finalize gridView globalIndex_ !! j = Some (index globalIndex_ element).
Proof.
  intros Hj. rewrite finalize_map.
  change (map (index globalIndex_) gridView) with (index globalIndex_ <$> gridView).
  rewrite list_lookup_fmap, Hj. reflexivity.
Qed.

(** [initialize] runs off the vector exactly when the grid view has
    more elements than the vector has entries. *)
Lemma initialize_None (gridView : list Element) (idx : list Z) (globalIndex_ : container) :
  initialize gridView idx globalIndex_ = None <-> (length idx < length gridView)%nat.
Proof.
  revert idx globalIndex_.
  induction gridView as [| it gridView IH]; intros idx globalIndex_.
  - cbn. split; [discriminate | lia].
  - destruct idx as [| i idx]; cbn [initialize length].
    + split; [lia | reflexivity].
    + rewrite IH. lia.
Qed.

(** [initialize] touches the elements of the grid view and no other. *)
Lemma initialize_other (gridView : list Element) (idx : list Z)
    (globalIndex_ filled : container) (element : Element) :
  initialize gridView idx globalIndex_ = Some filled ->
  element ∉ gridView ->
  filled !! element = globalIndex_ !! element.
Proof.
  revert idx globalIndex_.
  induction gridView as [| it gridView IH]; intros idx globalIndex_ Hrun Hnotin.
  - cbn in Hrun. congruence.
  - destruct idx as [| i idx]; cbn [initialize] in Hrun; [discriminate |].
    apply not_elem_of_cons in Hnotin as [Hne Hnotin].
    rewrite (IH _ _ Hrun Hnotin). apply lookup_insert_ne. congruence.
Qed.

(** After [initialize] each element of the grid view holds the entry
    of the vector at its position. *)
Lemma initialize_entries (gridView : list Element) (idx : list Z)
    (globalIndex_ filled : container) :
  NoDup gridView ->
  initialize gridView idx globalIndex_ = Some filled ->
  map (index filled) gridView = take (length gridView) idx.
Proof.
  revert idx globalIndex_.
  induction gridView as [| it gridView IH]; intros idx globalIndex_ Hnodup Hrun.
  - reflexivity.
  - destruct idx as [| i idx]; cbn [initialize] in Hrun; [discriminate |].
    apply NoDup_cons in Hnodup as [Hfresh Hnodup].
    cbn [map length take]. f_equal.
    + unfold index. rewrite (initialize_other _ _ _ _ _ Hrun Hfresh).
      rewrite lookup_insert_eq. reflexivity.
    + apply (IH _ _ Hnodup Hrun).
Qed.

(** X6.  A data handle that is made for a grid view and destroyed
    again, with the same elements in the grid view and nothing received
    in between, leaves the vector of Cartesian indices as it was: its
    first entries, as many as the grid view has elements, and all of it
    when the two are of the same length.  Making the data handle reads
    past the end of the vector exactly when the grid view has more
    elements than the vector has entries. *)
Theorem dataHandle_without_migration (gridView : list Element) (cartesianIndex_ : list Z) :
  NoDup gridView ->
  (construct gridView cartesianIndex_ = None
   <-> (length cartesianIndex_ < length gridView)%nat)
  /\ ((length gridView <= length cartesianIndex_)%nat ->
      finalize gridView <$> construct gridView cartesianIndex_
      = Some (take (length gridView) cartesianIndex_))
  /\ (length gridView = length cartesianIndex_ ->
      finalize gridView <$> construct gridView cartesianIndex_ = Some cartesianIndex_).
Proof.
  intros Hnodup. unfold construct.
  assert (Htake : (length gridView <= length cartesianIndex_)%nat ->
            finalize gridView <$> initialize gridView cartesianIndex_ ∅
            = Some (take (length gridView) cartesianIndex_)).
  { intros Hlen.
    destruct (initialize gridView cartesianIndex_ ∅) as [filled |] eqn:Hrun.
    - cbn. rewrite finalize_map, (initialize_entries _ _ _ _ Hnodup Hrun). reflexivity.
    - apply initialize_None in Hrun. lia. }
  split; [apply initialize_None |]. split; [exact Htake |].
  intros Hlen. rewrite Htake by lia. rewrite Hlen, firstn_all. reflexivity.
Qed.

(** X7.  A cell that migrates keeps its Cartesian index.  For the
    element at position [k] of the grid view it was made for, the data
    handle writes the entry [k] of the vector to the message buffer, one
    [int] as [size] says.  The data handle that reads this [int] for an
    element stores it for the element when it is not negative, and
    leaves the element as it was when it is negative; no other element
    changes, the buffer is one [int] shorter, and [finalize] writes the
    stored index at each position the element has in the grid view. *)
Theorem dataHandle_migration (sent : list Element) (cartesianIndex_ : list Z)
    (sender receiver : container) (element element' : Element) (k : nat) (i : Z)
    (buff rest : list Z) (n : nat) :
  NoDup sent ->
  construct sent cartesianIndex_ = Some sender ->
  sent !! k = Some element ->
  cartesianIndex_ !! k = Some i ->
  gather sender buff element = buff ++ [i]
  /\ length (gather sender buff element) = (length buff + size element)%nat
  /\ exists received,
       scatter receiver (gather sender [] element ++ rest) element' n
       = Some (received, rest)
       /\ index received element' = (if 0 <=? i then i else index receiver element')
       /\ (forall other, other <> element' -> index received other = index receiver other)
       /\ forall (gridView : list Element) (j : nat),
            gridView !! j = Some element' ->
            finalize gridView received !! j
            = Some (if 0 <=? i then i else index receiver element').
Proof.
  intros Hnodup Hmade Hk Hi.
  assert (Hentry : index sender element = i).
  { pose proof (initialize_entries _ _ _ _ Hnodup Hmade) as Hall.
    apply (f_equal (fun l => l !! k)) in Hall.
    change (map (index sender) sent) with (index sender <$> sent) in Hall.
    rewrite list_lookup_fmap, Hk in Hall. cbn in Hall.
    rewrite lookup_take_lt in Hall by (apply lookup_lt_Some in Hk; exact Hk).
    congruence. }
  unfold gather. rewrite Hentry. cbn zeta.
  split; [reflexivity |].
  split; [rewrite length_app; reflexivity |].
  cbn [app scatter].
  destruct (0 <=? i) eqn:Hsign.
  - exists (<[element' := i]> receiver).
    assert (Hstored : index (<[element' := i]> receiver) element' = i)
      by (unfold index; rewrite lookup_insert_eq; reflexivity).
    split; [reflexivity |]. split; [exact Hstored |]. split.
    + intros other Hother. unfold index. rewrite lookup_insert_ne by congruence.
      reflexivity.
    + intros gridView j Hj. rewrite (finalize_lookup _ _ _ _ Hj), Hstored. reflexivity.
  - exists receiver.
    split; [reflexivity |]. split; [reflexivity |]. split; [reflexivity |].
    intros gridView j Hj. apply finalize_lookup, Hj.
Qed.

(** X8.  [finalize] writes one entry for each element of the grid
    view.  For an element that was not in the grid view the data handle
    was made for, and for which nothing was received, the entry is -1,
    the index of a default-constructed [GlobalCellIndex]. *)
Theorem dataHandle_cells_without_index (before after : list Element)
    (cartesianIndex_ : list Z) (globalIndex_ : container) :
  construct before cartesianIndex_ = Some globalIndex_ ->
  length (finalize after globalIndex_) = length after
  /\ forall (j : nat) (element : Element),
       after !! j = Some element -> element ∉ before ->
       finalize after globalIndex_ !! j = Some (-1).
Proof.
  intros Hmade. split.
  - rewrite finalize_map. apply length_map.
  - intros j element Hj Hnew. rewrite (finalize_lookup _ _ _ _ Hj).
    unfold index. rewrite (initialize_other _ _ _ _ _ Hmade Hnew).
    rewrite lookup_empty. reflexivity.
Qed.
End DataHandleProperties.

(* ===================================================================== *)
(** * Part III.  The properties at concrete inputs                        *)
(* ===================================================================== *)

Section Instances.
Import Inputs.
Local Open Scope scalar_scope.

Lemma layout_2x2 : MPNCPrimaryVariables.layoutOk 2 2 2 3 0 4.
Proof.
  split.
  - change (NoDup [0; 1; 2; 3]%nat).
    repeat (apply NoDup_cons_2; [rewrite ?elem_of_cons, elem_of_nil; lia |]).
    apply NoDup_nil_2.
  - change (Forall (fun i => i < 4)%nat [0; 1; 2; 3]%nat).
    repeat (apply Forall_cons_2; [lia |]). apply Forall_nil_2.
Defined.

Lemma twoPhaseState_sameTemperature :
  MPNCPrimaryVariables.sameTemperature 2 twoPhaseState.
Proof.
  intros phaseIdx Hrange.
  assert (E : phaseIdx = 1%nat) by lia. subst phaseIdx.
  vm_compute. reflexivity.
Defined.

(** C1 in a debug build, on [twoPhaseState]. *)
Lemma assignMassConservative_equilibrium_witness :
  assignMC false twoPhaseState tt true freshVector = assignNaive twoPhaseState freshVector
  /\ exists pv,
       assignMC false twoPhaseState tt true freshVector
       = Done (tt, {| MPNCPrimaryVariables.priVars := pv;
                      MPNCPrimaryVariables.flashLog := [] |})
       /\ length pv = 4%nat
       /\ (forall compIdx, (compIdx < 2)%nat ->
             pv !! (0 + compIdx)%nat
             = Some (MPNCPrimaryVariables.fugacity twoPhaseState 0 compIdx))
       /\ pv !! 2%nat = Some (MPNCPrimaryVariables.pressure twoPhaseState 0)
       /\ (forall phaseIdx, (phaseIdx < 2 - 1)%nat ->
             pv !! (3 + phaseIdx)%nat
             = Some (MPNCPrimaryVariables.saturation twoPhaseState phaseIdx))
       /\ (forall i, i ∉ MPNCPrimaryVariables.namedSlots 2 2 2 3 0 ->
             pv !! i = isothermal (MPNCPrimaryVariables.priVars freshVector)
                                  twoPhaseState !! i).
Proof.
  apply (assignMassConservative_equilibrium unit 2 2 2 3 0 isothermal
           (fun fs => fs) idleFlash false 4 twoPhaseState tt freshVector).
  - exact layout_2x2.
  - reflexivity.
  - right. exact twoPhaseState_sameTemperature.
Defined.


(** C7 on [mismatchedState]: the debug build stops in the assertion,
    the release build ends normally. *)
Lemma temperature_checked_in_debug_build_only_witness :
  assignMC true mismatchedState tt true freshVector <> AssertionFailed
  /\ (exists s', assignMC true mismatchedState tt true freshVector = Done (tt, s'))
  /\ assignMC false mismatchedState tt true freshVector = AssertionFailed
  /\ assignMC false twoPhaseState tt true freshVector
     = assignMC true twoPhaseState tt true freshVector.
Proof.
  destruct (temperature_checked_in_debug_build_only unit 2 2 2 3 0 isothermal
              (fun fs => fs) idleFlash 4 mismatchedState tt true freshVector)
    as (Hrelease & Hdone & Hdebug & _).
  destruct (temperature_checked_in_debug_build_only unit 2 2 2 3 0 isothermal
              (fun fs => fs) idleFlash 4 twoPhaseState tt true freshVector)
    as (_ & _ & _ & Hsame).
  split; [exact Hrelease |]. split; [| split].
  - apply Hdone; [exact layout_2x2 | reflexivity | reflexivity].
  - apply Hdebug. exists 1%nat. split; [lia | vm_compute; reflexivity].
  - apply Hsame. exact twoPhaseState_sameTemperature.
Defined.

(** C8 on [twoPhaseStateR], where the saturations 0.3 and 0.7 add up
    to 1: the saturation of the last phase is 1 minus the stored one. *)
Lemma primary_variable_layout_witness :
  length (MPNCPrimaryVariables.namedSlots 2 2 2 3 0) = 4%nat
  /\ (forall fs' : MPNCPrimaryVariables.FluidState R,
        (forall compIdx, (compIdx < 2)%nat ->
           MPNCPrimaryVariables.fugacity fs' 0 compIdx
           = MPNCPrimaryVariables.fugacity twoPhaseStateR 0 compIdx) ->
        MPNCPrimaryVariables.pressure fs' 0
        = MPNCPrimaryVariables.pressure twoPhaseStateR 0 ->
        (forall phaseIdx, (phaseIdx < 2 - 1)%nat ->
           MPNCPrimaryVariables.saturation fs' phaseIdx
           = MPNCPrimaryVariables.saturation twoPhaseStateR phaseIdx) ->
        assignNaive fs' freshVectorR = assignNaive twoPhaseStateR freshVectorR)
  /\ exists pv,
       assignNaive twoPhaseStateR freshVectorR
       = Done (tt, {| MPNCPrimaryVariables.priVars := pv;
                      MPNCPrimaryVariables.flashLog := [] |})
       /\ length pv = 4%nat
       /\ MPNCPrimaryVariables.saturation twoPhaseStateR 1
          = (#1 - MPNCPrimaryVariables.storedSaturationSum 3 pv 1)%S.
Proof.
  destruct (primary_variable_layout unit 2 2 2 3 0 isothermal 4
              twoPhaseStateR freshVectorR layout_2x2 eq_refl)
    as (Hslots & Hread & pv & Hrun & Hlen & _ & Hsum).
  split; [exact Hslots |]. split.
  - intros fs' Hfug Hp Hsat. apply Hread; [assumption .. | reflexivity].
  - exists pv. split; [exact Hrun |]. split; [exact Hlen |].
    apply Hsum; [exact R_ExactLaws | lia |].
    unfold MPNCPrimaryVariables.saturationSum.
    cbn [seq fold_left MPNCPrimaryVariables.saturation twoPhaseStateR].
    real_literals. lra.
Defined.



(** C9 over the reals: at 200 K the viscosity is the one at 275 K. *)
Lemma liquidViscosity_clamped_at_275_witness :
  Brine.liquidViscosity 0.1%R 200%R 100000%R
  = Brine.liquidViscosity 0.1%R (#275)%S 100000%R
  /\ Brine.liquidViscosity 0.1%R 200%R 100000%R
     = Brine.viscosityCorrelation 0.1%R (#275)%S.
Proof.
  destruct (liquidViscosity_clamped_at_275 (H0 := R_ScalarLaws) 0.1%R 200%R 100000%R)
    as (Hclamp & Hcorr & _).
  - apply Rleb_true. real_literals. lra.
  - apply Rleb_true. real_literals. lra.
  - split; [exact Hclamp | exact Hcorr].
Defined.

(** X23 over the reals at the freezing point, where the saturation
    limit of the salinity is 0.2635. *)
Lemma brine_without_salt_witness :
  Brine.liquidDensity linearWater (#0)%S 273.15%R 100000%R
  = H2O_liquidDensity linearWater 273.15%R 100000%R
  /\ Brine.liquidEnthalpy linearWater (#0)%S 273.15%R 100000%R
     = H2O_liquidEnthalpy linearWater 273.15%R 100000%R
  /\ Brine.liquidViscosity (#0)%S 273.15%R 100000%R
     = ((0.1 + 1.65 * exp (- (0.057138 * Rpower (Rmax 273.15 275 - 273.15) 0.8)))
        / 1000)%R.
Proof.
  destruct (brine_without_salt linearWater 273.15%R 100000%R)
    as (Hdensity & Henthalpy & Hviscosity).
  split; [exact Hdensity |]. split; [| exact Hviscosity].
  apply Henthalpy.
  unfold Brine.S_lSAT.
  replace (273.15 - 273.15)%R with 0%R by lra.
  cbn [spow R_CMath].
  replace (#2)%S with 2%R by (real_literals; lra).
  replace (#3)%S with 3%R by (real_literals; lra).
  rewrite !Rcpow_nonpos by lra.
  real_literals. cbn [powerRZ].
  rewrite !pow_i by apply Pos2Nat.is_pos. lra.
Defined.
(** The two-phase model computes: the vector after the equilibrium
    case, the global molarities, and the call of the flash calculation
    that the other case logs. *)
Example assignMassConservative_equilibrium_vector :
  assignMC false twoPhaseState tt true freshVector
  = Done (tt, {| MPNCPrimaryVariables.priVars := [ #2300; #98000; #1.0e5; #0.3];
                 MPNCPrimaryVariables.flashLog := [] |}).
Proof. vm_compute. reflexivity. Qed.

Example globalMolarities_twoPhaseState :
  MPNCPrimaryVariables.globalMolarities 2 2 twoPhaseState
  = [ #0.0 + #0.3 * #55000 + #0.7 * #1.5; #0.0 + #0.3 * #12 + #0.7 * #40].
Proof. vm_compute. reflexivity. Qed.

Example assignMassConservative_flash_log :
  exists pv,
    assignMC false twoPhaseState tt false freshVector
    = Done (tt, {| MPNCPrimaryVariables.priVars := pv;
                   MPNCPrimaryVariables.flashLog :=
                     [ {| MPNCPrimaryVariables.flashInitial := twoPhaseState;
                          MPNCPrimaryVariables.flashParams := tt;
                          MPNCPrimaryVariables.flashMolarities :=
                            MPNCPrimaryVariables.globalMolarities 2 2 twoPhaseState |} ] |})
    /\ pv = [ #2300; #98000; #1.0e5; #0.3].
Proof. eexists. split; vm_compute; reflexivity. Qed.

(** A vector that is too short for the layout: the assignment of the
    saturation is outside of it. *)
Example assignMassConservative_short_vector :
  assignMC true twoPhaseState tt true
    {| MPNCPrimaryVariables.priVars := replicate 3 #0;
       MPNCPrimaryVariables.flashLog := [] |}
  = OutOfRange.
Proof. vm_compute. reflexivity. Qed.

(** In binary64 the Newton iteration on [quadraticWater] returns a
    pressure above 295 for the density 10000, whose pressure is 100. *)
Example liquidPressure_quadraticWater :
  (#295 <? Brine.liquidPressure quadraticWater #0 #293.15 #10000) = true
  /\ H2O_liquidDensity quadraticWater #293.15 #100 = #10000.
Proof. split; vm_compute; reflexivity. Qed.

(** In binary64, whatever [std::pow] and [std::exp] compute: the
    viscosity at 200 K is the viscosity at 275 K. *)
Example liquidViscosity_200K_binary64 (cmath : CMath float) (salinity P : float) :
  Brine.liquidViscosity salinity #200 P = Brine.liquidViscosity salinity #275 P.
Proof.
  unfold Brine.liquidViscosity.
  replace (sleb (#200 : float) #275) with true by (vm_compute; reflexivity).
  replace (sleb (#275 : float) #275) with true by (vm_compute; reflexivity).
  reflexivity.
Qed.

(** Over the reals, [linearWater] without salt at 20 degrees Celsius: the
    pressure 100000 Pa comes back from its density. *)
Example liquidPressure_linearWater :
  Brine.liquidPressure linearWater 0%R 293.15%R
    (Brine.liquidDensity linearWater 0%R 293.15%R 100000%R) = 100000%R.
Proof.
  apply (liquidPressure_affine_round_trip linearWater 0%R 293.15%R
           998%R (/ 2200000)%R).
  - cbn. lra.
  - lra.
  - intros P. unfold Brine.liquidDensity. cbv zeta.
    cbn [H2O_liquidDensity linearWater]. real_literals. lra.
Qed.

(** ** The further properties at concrete inputs *)

Lemma grid432_inside (coords : list Z) :
  coords = [1; 2; 1]%Z ->
  forall d, (d < 3)%nat ->
    (0 <= CartesianIndexMapper.at_ coords d < CartesianIndexMapper.at_ grid432 d)%Z.
Proof.
  intros -> d Hd.
  do 3 (destruct d as [| d]; [cbn; lia |]). lia.
Defined.

Lemma grid432_cells :
  (CartesianIndexMapper.stride grid432 3 <= CartesianIndexMapper.INT_MAX)%Z.
Proof. vm_compute. discriminate. Defined.

(** X1 in the grid of 4 x 3 x 2 cells: the cell (1, 2, 1) has an index
    below 24. *)
Lemma cartesianIndex_of_coordinates_in_range_witness :
  CartesianIndexMapper.computeCartesianSize_int 3 grid432
  = CartesianIndexMapper.stride grid432 3
  /\ CartesianIndexMapper.cartesianSize 3 grid432
     = CartesianIndexMapper.computeCartesianSize_int 3 grid432
  /\ CartesianIndexMapper.cartesianIndexOfCoords_int 3 grid432 [1; 2; 1]%Z
     = CartesianIndexMapper.cartesianIndexOfCoords 3 grid432 [1; 2; 1]%Z
  /\ (0 <= CartesianIndexMapper.cartesianIndexOfCoords_int 3 grid432 [1; 2; 1]%Z
      < CartesianIndexMapper.computeCartesianSize_int 3 grid432)%Z.
Proof.
  apply (cartesianIndex_of_coordinates_in_range 3 grid432 [1; 2; 1]%Z).
  - lia.
  - apply grid432_inside. reflexivity.
  - exact grid432_cells.
Defined.

(** X2 in the grid of 4 x 3 x 2 cells. *)
Lemma cartesianIndex_of_coordinates_injective_witness :
  CartesianIndexMapper.cartesianIndexOfCoords_int 3 grid432 [1; 2; 1]%Z = 21%Z
  /\ [1; 2; 1]%Z = [1; 2; 1]%Z.
Proof.
  split; [reflexivity |].
  apply (cartesianIndex_of_coordinates_injective 3 grid432 [1; 2; 1]%Z [1; 2; 1]%Z).
  - reflexivity.
  - reflexivity.
  - apply grid432_inside. reflexivity.
  - apply grid432_inside. reflexivity.
  - exact grid432_cells.
  - reflexivity.
Defined.

(** X3 in the grid of 4 x 3 x 2 cells, for the cell (1, 2, 1), whose
    index is 21: the first two coordinates come back, and the last one
    comes back as (2 + 3 * 1) / 2, which is 2. *)
Lemma cartesianCoordinate_of_cartesianIndex_witness :
  exists coords',
    CartesianIndexMapper.cartesianCoordinate 3 grid432 [21]%Z 0 [0; 0; 0]%Z = Some coords'
    /\ length coords' = 3%nat
    /\ (forall d, (d < 3 - 1)%nat -> coords' !! d = [1; 2; 1]%Z !! d)
    /\ ((2 <= 3)%nat ->
        coords' !! (3 - 1)%nat
        = Some (Z.quot (CartesianIndexMapper.at_ [1; 2; 1]%Z (3 - 2)
                        + CartesianIndexMapper.at_ grid432 (3 - 2)
                          * CartesianIndexMapper.at_ [1; 2; 1]%Z (3 - 1))
                       (CartesianIndexMapper.at_ grid432 (3 - 1))))
    /\ (3%nat = 1%nat
        \/ CartesianIndexMapper.at_ grid432 (3 - 1) = CartesianIndexMapper.at_ grid432 (3 - 2) ->
        coords' = [1; 2; 1]%Z).
Proof.
  apply (cartesianCoordinate_of_cartesianIndex 3 grid432 [21]%Z 0 [1; 2; 1]%Z [0; 0; 0]%Z).
  - lia.
  - reflexivity.
  - reflexivity.
  - apply grid432_inside. reflexivity.
  - exact grid432_cells.
  - reflexivity.
Defined.


(** X5 in a grid of 4 x 3 x 3 cells, whose last two Cartesian
    dimensions are the same. *)
Lemma cartesianCoordinate_then_cartesianIndex_witness :
  CartesianIndexMapper.cartesianIndexOfCoords_int 3 [4; 3; 3]%Z
    <$> CartesianIndexMapper.cartesianCoordinate 3 [4; 3; 3]%Z [21]%Z 0 [0; 0; 0]%Z
  = CartesianIndexMapper.cartesianIndex [21]%Z 0
  /\ CartesianIndexMapper.cartesianIndexOfCoords 3 [4; 3; 3]%Z
       <$> CartesianIndexMapper.cartesianCoordinate 3 [4; 3; 3]%Z [21]%Z 0 [0; 0; 0]%Z
     = CartesianIndexMapper.cartesianIndex [21]%Z 0.
Proof.
  apply (cartesianCoordinate_then_cartesianIndex 3 [4; 3; 3]%Z [21]%Z 0 [0; 0; 0]%Z).
  - reflexivity.
  - intros d Hd. do 3 (destruct d as [| d]; [cbn; lia |]). lia.
  - vm_compute. discriminate.
  - intros gc Hread. injection Hread as <-.
    unfold CartesianIndexMapper.INT_MIN, CartesianIndexMapper.INT_MAX. lia.
  - right. split; [lia | reflexivity].
Defined.

Lemma threeCells_NoDup : NoDup threeCells.
Proof.
  unfold threeCells.
  repeat (apply NoDup_cons_2; [rewrite ?elem_of_cons, elem_of_nil; lia |]).
  apply NoDup_nil_2.
Defined.

(** X6 for three cells. *)
Lemma dataHandle_without_migration_witness :
  (CartesianIndexMapper.GlobalIndexDataHandle.construct threeCells threeIndices = None
   <-> (length threeIndices < length threeCells)%nat)
  /\ ((length threeCells <= length threeIndices)%nat ->
      CartesianIndexMapper.GlobalIndexDataHandle.finalize threeCells
        <$> CartesianIndexMapper.GlobalIndexDataHandle.construct threeCells threeIndices
      = Some (take (length threeCells) threeIndices))
  /\ (length threeCells = length threeIndices ->
      CartesianIndexMapper.GlobalIndexDataHandle.finalize threeCells
        <$> CartesianIndexMapper.GlobalIndexDataHandle.construct threeCells threeIndices
      = Some threeIndices).
Proof.
  apply (dataHandle_without_migration threeCells threeIndices).
  exact threeCells_NoDup.
Defined.

(** X7: cell 20, whose Cartesian index is 7, arrives as cell 40 in a
    process that holds nothing yet. *)
Lemma dataHandle_migration_witness :
  CartesianIndexMapper.GlobalIndexDataHandle.gather threeCellsHandle [] 20%nat = [7]%Z
  /\ exists received,
       CartesianIndexMapper.GlobalIndexDataHandle.scatter ∅
         (CartesianIndexMapper.GlobalIndexDataHandle.gather threeCellsHandle [] 20%nat ++ [])
         40%nat 1
       = Some (received, [])
       /\ CartesianIndexMapper.GlobalIndexDataHandle.index received 40%nat = 7%Z
       /\ CartesianIndexMapper.GlobalIndexDataHandle.finalize [40%nat] received !! 0%nat
          = Some 7%Z.
Proof.
  destruct (dataHandle_migration threeCells threeIndices threeCellsHandle ∅
              20%nat 40%nat 1 7%Z [] [] 1 threeCells_NoDup eq_refl eq_refl eq_refl)
    as (Hsent & _ & received & Hread & Hstored & _ & Hfinal).
  split; [exact Hsent |].
  exists received. split; [exact Hread |]. split; [exact Hstored |].
  apply (Hfinal [40%nat] 0%nat eq_refl).
Defined.

(** X8: after the load balance the grid view has the cells 20 and 40,
    and nothing was received for cell 40. *)
Lemma dataHandle_cells_without_index_witness :
  length (CartesianIndexMapper.GlobalIndexDataHandle.finalize [20; 40]%nat threeCellsHandle)
  = 2%nat
  /\ CartesianIndexMapper.GlobalIndexDataHandle.finalize [20; 40]%nat threeCellsHandle
       !! 1%nat
     = Some (-1)%Z.
Proof.
  destruct (dataHandle_cells_without_index threeCells [20; 40]%nat threeIndices
              threeCellsHandle eq_refl) as [Hlen Hnew].
  split; [exact Hlen |].
  apply (Hnew 1%nat 40%nat eq_refl).
  unfold threeCells. rewrite !elem_of_cons, elem_of_nil. lia.
Defined.

(** X10 in a debug build, on [twoPhaseState]. *)
Lemma assignMassConservative_stores_flash_result_witness :
  let gm := MPNCPrimaryVariables.globalMolarities 2 2 twoPhaseState in
  let fsFlash := idleFlash twoPhaseState tt gm in
  exists pv,
    assignMC false twoPhaseState tt false freshVector
    = Done (tt, {| MPNCPrimaryVariables.priVars := pv;
                   MPNCPrimaryVariables.flashLog :=
                     MPNCPrimaryVariables.flashLog freshVector ++
                     [ {| MPNCPrimaryVariables.flashInitial := twoPhaseState;
                          MPNCPrimaryVariables.flashParams := tt;
                          MPNCPrimaryVariables.flashMolarities := gm |} ] |})
    /\ length pv = 4%nat
    /\ (forall compIdx, (compIdx < 2)%nat ->
          pv !! (0 + compIdx)%nat
          = Some (MPNCPrimaryVariables.fugacity fsFlash 0 compIdx))
    /\ pv !! 2%nat = Some (MPNCPrimaryVariables.pressure fsFlash 0)
    /\ (forall phaseIdx, (phaseIdx < 2 - 1)%nat ->
          pv !! (3 + phaseIdx)%nat
          = Some (MPNCPrimaryVariables.saturation fsFlash phaseIdx))
    /\ (forall i, i ∉ MPNCPrimaryVariables.namedSlots 2 2 2 3 0 ->
          pv !! i = isothermal (MPNCPrimaryVariables.priVars freshVector) fsFlash !! i).
Proof.
  apply (assignMassConservative_stores_flash_result unit 2 2 2 3 0 isothermal
           (fun fs => fs) idleFlash false 4 twoPhaseState tt freshVector).
  - exact layout_2x2.
  - intros pv fs'. reflexivity.
  - reflexivity.
  - right. exact twoPhaseState_sameTemperature.
Defined.

(** X11 with the pressure in the slot of the fugacity of component 1:
    the saturation and the pressure are stored. *)
Lemma assignNaive_last_assignment_wins_witness :
  exists pv,
    assignNaiveClash twoPhaseStateR shortVectorR
    = Done (tt, {| MPNCPrimaryVariables.priVars := pv;
                   MPNCPrimaryVariables.flashLog := [] |})
    /\ pv !! 2%nat = Some (MPNCPrimaryVariables.saturation twoPhaseStateR 0)
    /\ pv !! 1%nat = Some (MPNCPrimaryVariables.pressure twoPhaseStateR 0)
    /\ pv !! 0%nat = Some (MPNCPrimaryVariables.fugacity twoPhaseStateR 0 0).
Proof.
  destruct (assignNaive_last_assignment_wins unit 2 2 1 2 0 isothermal
              twoPhaseStateR shortVectorR)
    as (pv & Hrun & Hsat & Hp & Hfug).
  - change (Forall (fun i => i < 3)%nat [0; 1; 1; 2]%nat).
    repeat (apply Forall_cons_2; [lia |]). apply Forall_nil_2.
  - exists pv. split; [exact Hrun |]. split; [| split].
    + apply (Hsat 0%nat). lia.
    + apply Hp. lia.
    + apply (Hfug 0%nat); lia.
Defined.

(** X12 on [nanState]. *)
Lemma assignMassConservative_nan_temperature_witness :
  assignMC false nanState tt true freshVector = AssertionFailed.
Proof.
  apply (assignMassConservative_nan_temperature unit 2 2 2 3 0 isothermal
           (fun fs => fs) idleFlash nanState tt true freshVector).
  - lia.
  - reflexivity.
Defined.

Lemma S_lSAT_freezing : Brine.S_lSAT (273.15%R - #273.15)%S = 0.2635%R.
Proof.
  unfold Brine.S_lSAT.
  replace (273.15%R - #273.15)%S with 0%R by (real_literals; lra).
  cbn [spow R_CMath].
  replace (#2)%S with 2%R by (real_literals; lra).
  replace (#3)%S with 3%R by (real_literals; lra).
  rewrite !Rcpow_nonpos by lra.
  real_literals. cbn [powerRZ].
  rewrite !pow_i by apply Pos2Nat.is_pos. lra.
Defined.

(** X13 over the reals at the freezing point, where the saturation
    limit of the salinity is 0.2635, for the salinity 0.5. *)
Lemma liquidEnthalpy_salinity_regularised_witness :
  Brine.liquidEnthalpy linearWater 0.5%R 273.15%R 100000%R
  = Brine.liquidEnthalpy linearWater (Brine.S_lSAT (273.15%R - #273.15)%S) 273.15%R 100000%R
  /\ Brine.liquidInternalEnergy linearWater 0.5%R 273.15%R 100000%R
     = (Brine.liquidEnthalpy linearWater (Brine.S_lSAT (273.15%R - #273.15)) 273.15%R 100000%R
        - 100000%R / Brine.liquidDensity linearWater 0.5%R 273.15%R 100000%R)%S.
Proof.
  apply (liquidEnthalpy_salinity_regularised (H0 := R_ScalarLaws) linearWater
           0.5%R 273.15%R 100000%R).
  rewrite S_lSAT_freezing. apply Rltb_true. lra.
Defined.

(** X14 and X15 for the salinity 0.1, the default of [Brine]. *)
Lemma liquidViscosity_bounds_witness :
  (0 < (0.1 + 0.333 * 0.1) / 1000 < Brine.liquidViscosity 0.1 300 100000
   /\ Brine.liquidViscosity 0.1 300 100000
      < (1.75 + 0.333 * 0.1 + 91.9 * 0.1 * 0.1 * 0.1) / 1000)%R.
Proof. apply (liquidViscosity_bounds 0.1 300 100000). lra. Defined.

Lemma liquidViscosity_decreasing_witness :
  (Brine.liquidViscosity 0.1 350 200000 <= Brine.liquidViscosity 0.1 300 100000)%R.
Proof. apply (liquidViscosity_decreasing 0.1 300 350 100000 200000); lra. Defined.

(** X16 for [linearWater] with the salinity 0.1 at 20 degrees Celsius. *)
Lemma liquidPressure_inverts_linear_water_witness :
  Brine.liquidPressure linearWater 0.1%R 293.15%R
    (Brine.liquidDensity linearWater 0.1%R 293.15%R 100000%R) = 100000%R.
Proof.
  apply (liquidPressure_inverts_linear_water linearWater 0.1%R 293.15%R
           998%R (/ 2200000)%R 100000%R).
  - cbn. lra.
  - intros P. cbn. lra.
  - lra.
Defined.

(** X17 for a water without vapour pressure. *)
Lemma liquidPressure_without_vapour_pressure_witness :
  Brine.liquidPressure (vacuum (Scalar := R)) 0.1%R 293.15%R 1000%R = 0%R
  /\ Brine.liquidPressure (vacuum (Scalar := float)) #0.1 #293.15 #1000 = 0%float.
Proof.
  destruct liquidPressure_without_vapour_pressure as [Hreal Hbinary64].
  split.
  - apply Hreal. cbn [H2O_vaporPressure vacuum]. real_literals. lra.
  - apply Hbinary64. vm_compute. reflexivity.
Defined.

(** X18 for [linearWater] without salt: the density at the start value
    2572.9 Pa gives the start value back. *)
Lemma liquidPressure_start_is_root_witness :
  Brine.liquidPressure linearWater 0%R 293.15%R
    (Brine.liquidDensity linearWater 0%R 293.15%R
       (#1.1 * Brine.vaporPressure linearWater 293.15%R)%S)
  = (#1.1 * Brine.vaporPressure linearWater 293.15%R)%S.
Proof.
  apply (liquidPressure_start_is_root linearWater 0%R 293.15%R).
  - reflexivity.
  - unfold Brine.liquidDensity, Brine.vaporPressure. cbv zeta.
    cbn [H2O_liquidDensity H2O_vaporPressure linearWater].
    real_literals. lra.
Defined.


(** X20 on [twoPhaseState], in binary64. *)
Lemma assignNaive_idempotent_witness :
  exists s',
    assignNaive twoPhaseState freshVector = Done (tt, s')
    /\ assignNaive twoPhaseState s' = Done (tt, s').
Proof.
  apply (assignNaive_idempotent unit 2 2 2 3 0 isothermal 4 twoPhaseState freshVector).
  - exact layout_2x2.
  - intros pv. reflexivity.
  - reflexivity.
Defined.

(** X21 for the salinity 0.1 and water of 18 g/mol. *)
Lemma molarMass_between_witness :
  (18 <= Brine.molarMass 0.1 18 <= 58
   /\ Brine.molarMass 0 18 = 18
   /\ Brine.molarMass 1 18 = 58)%R.
Proof. apply (molarMass_between 0.1 18); lra. Defined.

(** X22 on [uniformStateR], whose saturations 0.3 and 0.7 add up to 1:
    the global molarity of component 1 is 40. *)
Lemma globalMolarities_uniform_molarity_witness :
  MPNCPrimaryVariables.globalMolarities 2 2 uniformStateR !! 1%nat = Some 40%R.
Proof.
  apply (globalMolarities_uniform_molarity 2 2 uniformStateR 1 40%R).
  - lia.
  - unfold MPNCPrimaryVariables.saturationSum.
    cbn [seq fold_left MPNCPrimaryVariables.saturation uniformStateR twoPhaseStateR].
    real_literals. lra.
  - intros phaseIdx Hphase. reflexivity.
Defined.

(** X24 for [quadraticWater], whose density at 100000 Pa is positive. *)
Lemma liquidDensity_salinity_0_binary64_witness :
  Brine.liquidDensity quadraticWater #0 #293.15 #1.0e5
  = H2O_liquidDensity quadraticWater #293.15 #1.0e5.
Proof.
  destruct (liquidDensity_salinity_0_binary64 quadraticWater) as [_ Hscenario].
  apply Hscenario. vm_compute. reflexivity.
Defined.

(** In grids of more than [INT_MAX] cells the arithmetic of [int]
    wraps around: 65536 x 65536 cells have the Cartesian size 0, two
    cells of 65536 x 65537 cells share the index 0, and the cell
    (5, 40000) of 65536 x 65536 cells has a negative index. *)
Example cartesianIndex_int_wraps :
  CartesianIndexMapper.computeCartesianSize_int 2 [65536; 65536]%Z = 0%Z
  /\ CartesianIndexMapper.cartesianIndexOfCoords_int 2 [65536; 65537]%Z [0; 65536]%Z
     = CartesianIndexMapper.cartesianIndexOfCoords_int 2 [65536; 65537]%Z [0; 0]%Z
  /\ CartesianIndexMapper.cartesianIndexOfCoords_int 2 [65536; 65536]%Z [5; 40000]%Z
     = (-1673527291)%Z.
Proof. repeat split; vm_compute; reflexivity. Qed.
End Instances.
